(** * Parallax-mapping fragment shader and fly camera of the Sandbox demo

    A shallow embedding of [Sandbox/parallax_mapping.fs], [Sandbox/Camera.h]
    and the input handlers of [Sandbox/main.cpp].

    Numbers.  The sources compute on 32-bit floats, and two embeddings of
    them are used.

    For the geometry (what the march brackets, the lighting, the basis of
    the camera, the view matrix, the clamps) a float is a real number ([R])
    and every operation is exact.  The statements made on the reals are
    those the float program meets up to rounding, or meets as they stand
    (comparisons with constants, clamps, the bound on the turns of the
    march).  What is kept of the float semantics there is partiality: a
    division by zero (which the hardware answers with an infinity or a NaN)
    is guarded, and a value that depends on one is undefined.

    Where a statement turns on a rounding (the number of turns of the march
    over a constant field, the coordinate returned under a height scale of
    zero), [ParallaxMapping] is embedded a second time, on binary32 numbers
    (modules [Binary32] and [ParallaxF32]): every operation of the shader is
    one IEEE 754 operation of precision 24, rounded to nearest with ties to
    even and not contracted with another, on numbers with infinities, NaN
    and signed zeros. *)

From Stdlib Require Import Reals Lra Lia List ZArith Bool SpecFloat.
Import ListNotations.
Open Scope R_scope.

(** ** Vectors and matrices (GLSL built-ins and glm) *)

Module Glm.

Record vec2 := V2 { v2x : R; v2y : R }.
Record vec3 := V3 { v3x : R; v3y : R; v3z : R }.
Record vec4 := V4 { v4x : R; v4y : R; v4z : R; v4w : R }.

(** The swizzle [v.xy]. *)
Definition xy (v : vec3) : vec2 := V2 (v3x v) (v3y v).

Definition vadd2 (a b : vec2) : vec2 := V2 (v2x a + v2x b) (v2y a + v2y b).
Definition vsub2 (a b : vec2) : vec2 := V2 (v2x a - v2x b) (v2y a - v2y b).
Definition vscale2 (a : vec2) (k : R) : vec2 := V2 (v2x a * k) (v2y a * k).

Definition vadd3 (a b : vec3) : vec3 :=
  V3 (v3x a + v3x b) (v3y a + v3y b) (v3z a + v3z b).
Definition vsub3 (a b : vec3) : vec3 :=
  V3 (v3x a - v3x b) (v3y a - v3y b) (v3z a - v3z b).
Definition vneg3 (a : vec3) : vec3 := V3 (- v3x a) (- v3y a) (- v3z a).
(** [v * k], vector times scalar. *)
Definition vscale3 (a : vec3) (k : R) : vec3 :=
  V3 (v3x a * k) (v3y a * k) (v3z a * k).
(** [k * v], scalar times vector. *)
Definition smul3 (k : R) (a : vec3) : vec3 :=
  V3 (k * v3x a) (k * v3y a) (k * v3z a).
(** [v - k] and [vec3(k)]: a scalar operand is applied to every component. *)
Definition vsubs3 (a : vec3) (k : R) : vec3 :=
  V3 (v3x a - k) (v3y a - k) (v3z a - k).
Definition splat3 (k : R) : vec3 := V3 k k k.

Definition dot (a b : vec3) : R :=
  v3x a * v3x b + v3y a * v3y b + v3z a * v3z b.

Definition cross (a b : vec3) : vec3 :=
  V3 (v3y a * v3z b - v3y b * v3z a)
     (v3z a * v3x b - v3z b * v3x a)
     (v3x a * v3y b - v3x b * v3y a).

(** [reflect(I, N) = I - 2 * dot(N, I) * N]. *)
Definition reflect (i n : vec3) : vec3 :=
  vsub3 i (smul3 (2 * dot n i) n).

(** Guarded division: [None] is the division by zero. *)
Definition rdiv (a b : R) : option R :=
  if Req_dec_T b 0 then None else Some (a / b).

(** [v / s] on a [vec2]: both components are divided by the same scalar. *)
Definition vdiv2 (a : vec2) (s : R) : option vec2 :=
  if Req_dec_T s 0 then None else Some (V2 (v2x a / s) (v2y a / s)).

(** [inversesqrt(x) = 1 / sqrt(x)]. *)
Definition inversesqrt (x : R) : option R := rdiv 1 (sqrt x).

(** [normalize(v) = v * inversesqrt(dot(v, v))]: undefined on the zero
    vector. *)
Definition normalize (v : vec3) : option vec3 :=
  match inversesqrt (dot v v) with
  | Some k => Some (vscale3 v k)
  | None => None
  end.

(** Order tests as the conditions of [if] and [while] read them. *)
Definition Rltb (a b : R) : bool := if Rlt_dec a b then true else false.
Definition Rgtb (a b : R) : bool := Rltb b a.

(** A [mat4] is stored by columns: [m[c]] is column [c], [m[c][r]] its
    component [r]. *)
Record mat4 := M4 { col0 : vec4; col1 : vec4; col2 : vec4; col3 : vec4 }.

(** [glm::mat4(1.0f)]. *)
Definition mat4_identity : mat4 :=
  M4 (V4 1 0 0 0) (V4 0 1 0 0) (V4 0 0 1 0) (V4 0 0 0 1).

Inductive idx4 := I0 | I1 | I2 | I3.

Definition vset (r : idx4) (a : R) (v : vec4) : vec4 :=
  match r with
  | I0 => V4 a (v4y v) (v4z v) (v4w v)
  | I1 => V4 (v4x v) a (v4z v) (v4w v)
  | I2 => V4 (v4x v) (v4y v) a (v4w v)
  | I3 => V4 (v4x v) (v4y v) (v4z v) a
  end.

(** The assignment [m[c][r] = a]. *)
Definition mset (c r : idx4) (a : R) (m : mat4) : mat4 :=
  match c with
  | I0 => M4 (vset r a (col0 m)) (col1 m) (col2 m) (col3 m)
  | I1 => M4 (col0 m) (vset r a (col1 m)) (col2 m) (col3 m)
  | I2 => M4 (col0 m) (col1 m) (vset r a (col2 m)) (col3 m)
  | I3 => M4 (col0 m) (col1 m) (col2 m) (vset r a (col3 m))
  end.

Definition vadd4 (a b : vec4) : vec4 :=
  V4 (v4x a + v4x b) (v4y a + v4y b) (v4z a + v4z b) (v4w a + v4w b).
Definition vscale4 (a : vec4) (k : R) : vec4 :=
  V4 (v4x a * k) (v4y a * k) (v4z a * k) (v4w a * k).

(** [m * v]: the combination of the columns of [m] weighted by [v]. *)
Definition mat_vec (m : mat4) (v : vec4) : vec4 :=
  vadd4 (vadd4 (vadd4 (vscale4 (col0 m) (v4x v)) (vscale4 (col1 m) (v4y v)))
               (vscale4 (col2 m) (v4z v)))
        (vscale4 (col3 m) (v4w v)).

(** [a * b]: column [j] of the product is [a] applied to column [j] of [b]. *)
Definition mat_mul (a b : mat4) : mat4 :=
  M4 (mat_vec a (col0 b)) (mat_vec a (col1 b))
     (mat_vec a (col2 b)) (mat_vec a (col3 b)).

(** [glm::radians]. *)
Definition radians (degrees : R) : R := degrees * PI / 180.

(** The least integer not below [r]. *)
Definition Rceil (r : R) : Z := (1 - up (- r))%Z.

End Glm.

(** ** Outcomes of a shader invocation *)

Inductive error := DivByZero | OutOfFuel.

Inductive result (A : Type) :=
| Ok (a : A)
| Err (e : error).
Arguments Ok {A} a.
Arguments Err {A} e.

Definition bind {A B} (c : result A) (k : A -> result B) : result B :=
  match c with
  | Ok a => k a
  | Err e => Err e
  end.

(** A guarded operation inside a shader: its [None] is a division by zero. *)
Definition guard {A} (o : option A) : result A :=
  match o with
  | Some a => Ok a
  | None => Err DivByZero
  end.

Notation "x <- c ;; k" := (bind c (fun x => k))
  (at level 61, c at next level, right associativity).
Notation "' pat <- c ;; k" := (bind c (fun x => match x with pat => k end))
  (at level 61, pat pattern, c at next level, right associativity).

(** ** parallax_mapping.fs *)

Module Parallax.
Import Glm.

(** The uniforms of the shader; a sampler is the function from texture
    coordinates to the texel [texture(sampler, coords)] returns ([.rgb] of it
    for the colour maps, [.r] for the depth map). *)
Record Uniforms := {
  diffuseMap : vec2 -> vec3;
  normalMap : vec2 -> vec3;
  depthMap : vec2 -> R;
  heightScale : R
}.

(** The interface block [fs_in]. *)
Record VS_OUT := {
  FragPos : vec3;
  TexCoords : vec2;
  TangentLightPos : vec3;
  TangentViewPos : vec3;
  TangentFragPos : vec3
}.

Definition numLayers : R := 10.

(** The variables the [while] loop of [ParallaxMapping] updates. *)
Record march := {
  currentTexCoords : vec2;
  currentDepthMapValue : R;
  currentLayerDepth : R
}.

(** The body of the loop. *)
Definition layer_step (u : Uniforms) (deltaTexCoords : vec2) (layerDepth : R)
    (s : march) : march :=
  let currentTexCoords' := vsub2 (currentTexCoords s) deltaTexCoords in
  {| currentTexCoords := currentTexCoords';
     currentDepthMapValue := depthMap u currentTexCoords';
     currentLayerDepth := currentLayerDepth s + layerDepth |}.

(** [while (currentLayerDepth < currentDepthMapValue) { ... }], with the
    number of times the body ran.  Each run of the body takes one unit of
    [fuel]. *)
Fixpoint layer_loop (fuel : nat) (u : Uniforms) (deltaTexCoords : vec2)
    (layerDepth : R) (s : march) : result (nat * march) :=
  if Rltb (currentLayerDepth s) (currentDepthMapValue s) then
    match fuel with
    | O => Err OutOfFuel
    | S fuel' =>
        '(n, s') <- layer_loop fuel' u deltaTexCoords layerDepth
                      (layer_step u deltaTexCoords layerDepth s) ;;
        Ok (S n, s')
    end
  else Ok (O, s).

(** The state in which [ParallaxMapping] enters the loop. *)
Definition march_start (u : Uniforms) (texCoords : vec2) : march :=
  {| currentTexCoords := texCoords;
     currentDepthMapValue := depthMap u texCoords;
     currentLayerDepth := 0 |}.

(** What [ParallaxMapping] has computed when its loop exits. *)
Record marched := {
  layerDepth : R;
  deltaTexCoords : vec2;
  iterations : nat;
  final : march
}.

(** [ParallaxMapping] up to the end of the loop. *)
Definition ParallaxMapping_march (fuel : nat) (u : Uniforms)
    (texCoords : vec2) (viewDir : vec3) : result marched :=
  layerDepth <- guard (rdiv 1 numLayers) ;;
  q <- guard (vdiv2 (xy viewDir) (v3z viewDir)) ;;
  let P := vscale2 q (heightScale u) in
  deltaTexCoords <- guard (vdiv2 P numLayers) ;;
  '(n, s) <- layer_loop fuel u deltaTexCoords layerDepth
               (march_start u texCoords) ;;
  Ok {| layerDepth := layerDepth; deltaTexCoords := deltaTexCoords;
        iterations := n; final := s |}.

(** [ParallaxMapping] after the loop: the interpolation between the last two
    samples. *)
Definition ParallaxMapping_refine (u : Uniforms) (m : marched) : result vec2 :=
  let s := final m in
  let prevTexCoords := vadd2 (currentTexCoords s) (deltaTexCoords m) in
  let afterDepth := currentDepthMapValue s - currentLayerDepth s in
  let beforeDepth :=
    depthMap u prevTexCoords - currentLayerDepth s + layerDepth m in
  weight <- guard (rdiv afterDepth (afterDepth - beforeDepth)) ;;
  let finalTexCoords :=
    vadd2 (vscale2 prevTexCoords weight)
          (vscale2 (currentTexCoords s) (1 - weight)) in
  Ok finalTexCoords.

Definition ParallaxMapping (fuel : nat) (u : Uniforms) (texCoords : vec2)
    (viewDir : vec3) : result vec2 :=
  m <- ParallaxMapping_march fuel u texCoords viewDir ;;
  ParallaxMapping_refine u m.

(** What the invocation leaves behind. *)
Inductive fragment :=
| Discarded
| FragColor (c : vec4).

(** The lighting of [main], from the two texels read at the displaced
    coordinate. *)
Definition lighting (fs_in : VS_OUT) (viewDir : vec3) (normalTexel color : vec3)
    : result fragment :=
  normal <- guard (normalize (vsubs3 (vscale3 normalTexel 2) 1)) ;;
  let ambient := smul3 0.1 color in
  lightDir <- guard (normalize (vsub3 (TangentLightPos fs_in)
                                     (TangentFragPos fs_in))) ;;
  let diff := Rmax (dot lightDir normal) 0 in
  let diffuse := smul3 diff color in
  let reflectDir := reflect (vneg3 lightDir) normal in
  halfwayDir <- guard (normalize (vadd3 lightDir viewDir)) ;;
  let spec := Rmax (dot normal halfwayDir) 0 ^ 32 in
  let specular := vscale3 (splat3 0.2) spec in
  let rgb := vadd3 (vadd3 ambient diffuse) specular in
  Ok (FragColor (V4 (v3x rgb) (v3y rgb) (v3z rgb) 1)).

Definition main (fuel : nat) (u : Uniforms) (fs_in : VS_OUT) : result fragment :=
  viewDir <- guard (normalize (vsub3 (TangentViewPos fs_in)
                                    (TangentFragPos fs_in))) ;;
  texCoords <- ParallaxMapping fuel u (TexCoords fs_in) viewDir ;;
  if Rgtb (v2x texCoords) 1 || Rgtb (v2y texCoords) 1
     || Rltb (v2x texCoords) 0 || Rltb (v2y texCoords) 0
  then Ok Discarded
  else lighting fs_in viewDir (normalMap u texCoords) (diffuseMap u texCoords).

(** Inputs on which the statements below are instantiated: uniforms with a
    height field constant at [h], the centre of the texture, a view straight
    at the surface and one along it, and a fragment seen straight on. *)
Definition flat_uniforms (h scale : R) : Uniforms :=
  {| diffuseMap := fun _ => V3 1 1 1;
     normalMap := fun _ => V3 0.5 0.5 1;
     depthMap := fun _ => h;
     heightScale := scale |}.
Definition centre : vec2 := V2 0.5 0.5.
Definition facing : vec3 := V3 0 0 1.
Definition grazing : vec3 := V3 1 0 0.
Definition centre_fragment : VS_OUT :=
  {| FragPos := V3 0 0 0; TexCoords := centre;
     TangentLightPos := V3 0 0 2; TangentViewPos := V3 0 0 1;
     TangentFragPos := V3 0 0 0 |}.



End Parallax.

(** ** Camera.h *)

Module CameraH.
Import Glm.

Notation "x <~ c ;; k" :=
  (match c with Some x => k | None => None end)
  (at level 61, c at next level, right associativity).

Inductive Camera_Movement := FORWARD | BACKWARD | LEFT | RIGHT | UP | DOWN.

Definition Camera_Movement_eqb (a b : Camera_Movement) : bool :=
  match a, b with
  | FORWARD, FORWARD | BACKWARD, BACKWARD | LEFT, LEFT
  | RIGHT, RIGHT | UP, UP | DOWN, DOWN => true
  | _, _ => false
  end.

(** Default camera values. *)
Definition YAW : R := -90.
Definition PITCH : R := 0.
Definition SPEED : R := 2.5.
Definition SENSITIVITY : R := 0.1.
Definition ZOOM : R := 45.

(** The fields of [class Camera].  A vector field holds its three components,
    or [None] once it has been computed from a division by zero (the source
    then stores NaN components and carries on). *)
Record Camera := {
  Position : option vec3;
  Front : option vec3;
  Up : option vec3;
  Right : option vec3;
  WorldUp : vec3;
  Yaw : R;
  Pitch : R;
  MovementSpeed : R;
  MouseSensitivity : R;
  Zoom : R
}.

Definition set_Position (p : option vec3) (c : Camera) : Camera :=
  {| Position := p; Front := Front c; Up := Up c; Right := Right c;
     WorldUp := WorldUp c; Yaw := Yaw c; Pitch := Pitch c;
     MovementSpeed := MovementSpeed c;
     MouseSensitivity := MouseSensitivity c; Zoom := Zoom c |}.

Definition set_Yaw (a : R) (c : Camera) : Camera :=
  {| Position := Position c; Front := Front c; Up := Up c; Right := Right c;
     WorldUp := WorldUp c; Yaw := a; Pitch := Pitch c;
     MovementSpeed := MovementSpeed c;
     MouseSensitivity := MouseSensitivity c; Zoom := Zoom c |}.

Definition set_Pitch (a : R) (c : Camera) : Camera :=
  {| Position := Position c; Front := Front c; Up := Up c; Right := Right c;
     WorldUp := WorldUp c; Yaw := Yaw c; Pitch := a;
     MovementSpeed := MovementSpeed c;
     MouseSensitivity := MouseSensitivity c; Zoom := Zoom c |}.

Definition set_Zoom (a : R) (c : Camera) : Camera :=
  {| Position := Position c; Front := Front c; Up := Up c; Right := Right c;
     WorldUp := WorldUp c; Yaw := Yaw c; Pitch := Pitch c;
     MovementSpeed := MovementSpeed c;
     MouseSensitivity := MouseSensitivity c; Zoom := a |}.

(** The front vector before normalisation, from the Euler angles. *)
Definition euler_front (yaw pitch : R) : vec3 :=
  V3 (cos (radians yaw) * cos (radians pitch))
     (sin (radians pitch))
     (sin (radians yaw) * cos (radians pitch)).

Definition updateCameraVectors (c : Camera) : Camera :=
  let front := euler_front (Yaw c) (Pitch c) in
  let Front' := normalize front in
  let Right' := f <~ Front' ;; normalize (cross f (WorldUp c)) in
  let Up' := r <~ Right' ;; f <~ Front' ;; normalize (cross r f) in
  {| Position := Position c; Front := Front'; Up := Up'; Right := Right';
     WorldUp := WorldUp c; Yaw := Yaw c; Pitch := Pitch c;
     MovementSpeed := MovementSpeed c;
     MouseSensitivity := MouseSensitivity c; Zoom := Zoom c |}.

(** The constructor with vectors; [Up] and [Right] have no value before
    [updateCameraVectors] assigns them. *)
Definition new_Camera (position up : vec3) (yaw pitch : R) : Camera :=
  updateCameraVectors
    {| Position := Some position; Front := Some (V3 0 0 (-1));
       Up := None; Right := None;
       WorldUp := up; Yaw := yaw; Pitch := pitch;
       MovementSpeed := SPEED; MouseSensitivity := SENSITIVITY;
       Zoom := ZOOM |}.

Definition calc_lookat (position target worldup : vec3) : option mat4 :=
  cameraDirection <~ normalize (vsub3 position target) ;;
  cameraRight <~ normalize (cross worldup cameraDirection) ;;
  let cameraUp := cross cameraDirection cameraRight in
  let translation := mat4_identity in
  let translation := mset I3 I0 (- v3x position) translation in
  let translation := mset I3 I1 (- v3y position) translation in
  let translation := mset I3 I2 (- v3z position) translation in
  let rotation := mat4_identity in
  let rotation := mset I0 I0 (v3x cameraRight) rotation in
  let rotation := mset I1 I0 (v3y cameraRight) rotation in
  let rotation := mset I2 I0 (v3z cameraRight) rotation in
  let rotation := mset I0 I1 (v3x cameraUp) rotation in
  let rotation := mset I1 I1 (v3y cameraUp) rotation in
  let rotation := mset I2 I1 (v3z cameraUp) rotation in
  let rotation := mset I0 I2 (v3x cameraDirection) rotation in
  let rotation := mset I1 I2 (v3y cameraDirection) rotation in
  let rotation := mset I2 I2 (v3z cameraDirection) rotation in
  Some (mat_mul rotation translation).

Definition GetViewMatrix (c : Camera) : option mat4 :=
  position <~ Position c ;;
  front <~ Front c ;;
  up <~ Up c ;;
  calc_lookat position (vadd3 position front) up.

(** [Position += v] and [Position -= v]. *)
Definition Position_add (v : option vec3) (c : Camera) : Camera :=
  set_Position (p <~ Position c ;; d <~ v ;; Some (vadd3 p d)) c.
Definition Position_sub (v : option vec3) (c : Camera) : Camera :=
  set_Position (p <~ Position c ;; d <~ v ;; Some (vsub3 p d)) c.

(** [v * velocity] on a vector field. *)
Definition scaled (v : option vec3) (velocity : R) : option vec3 :=
  a <~ v ;; Some (vscale3 a velocity).

Definition ProcessKeyboard (direction : Camera_Movement) (deltaTime : R)
    (c : Camera) : Camera :=
  let velocity := MovementSpeed c * deltaTime in
  let c :=
    if Camera_Movement_eqb direction FORWARD then
      let c := Position_add (scaled (Front c) velocity) c in
      Position_add (scaled (Front c) velocity) c
    else c in
  let c :=
    if Camera_Movement_eqb direction BACKWARD then
      let c := Position_sub (scaled (Front c) velocity) c in
      Position_sub (scaled (Front c) velocity) c
    else c in
  let c :=
    if Camera_Movement_eqb direction LEFT
    then Position_sub (scaled (Right c) velocity) c else c in
  let c :=
    if Camera_Movement_eqb direction RIGHT
    then Position_add (scaled (Right c) velocity) c else c in
  let c :=
    if Camera_Movement_eqb direction UP
    then Position_add (scaled (Up c) velocity) c else c in
  let c :=
    if Camera_Movement_eqb direction DOWN
    then Position_sub (scaled (Up c) velocity) c else c in
  c.

Definition ProcessMouseMovement (xoffset yoffset : R) (constrainPitch : bool)
    (c : Camera) : Camera :=
  let xoffset := xoffset * MouseSensitivity c in
  let yoffset := yoffset * MouseSensitivity c in
  let c := set_Yaw (Yaw c + xoffset) c in
  let c := set_Pitch (Pitch c + yoffset) c in
  let c :=
    if constrainPitch then
      let c := if Rgtb (Pitch c) 89 then set_Pitch 89 c else c in
      let c := if Rltb (Pitch c) (-89) then set_Pitch (-89) c else c in
      c
    else c in
  updateCameraVectors c.

Definition ProcessMouseScroll (yoffset : R) (c : Camera) : Camera :=
  let c := set_Zoom (Zoom c - yoffset) c in
  let c := if Rltb (Zoom c) 1 then set_Zoom 1 c else c in
  let c := if Rgtb (Zoom c) 45 then set_Zoom 45 c else c in
  c.

(** A call of [ProcessMouseMovement] by its arguments, and a sequence of
    calls on one camera. *)
Definition rotate_call : Type := R * R * bool.

Definition rotate_calls (calls : list rotate_call) (c : Camera) : Camera :=
  fold_left (fun c '(xoffset, yoffset, constrainPitch) =>
               ProcessMouseMovement xoffset yoffset constrainPitch c)
            calls c.

(** A sequence of calls of [ProcessMouseScroll]. *)
Definition zoom_calls (offsets : list R) (c : Camera) : Camera :=
  fold_left (fun c yoffset => ProcessMouseScroll yoffset c) offsets c.

(** [front], [right], [up] are mutually orthogonal unit vectors. *)
Definition orthonormal (front right up : vec3) : Prop :=
  dot front front = 1 /\ dot right right = 1 /\ dot up up = 1 /\
  dot front right = 0 /\ dot front up = 0 /\ dot right up = 0.

(** [a], [b], [c] are oriented like the x, y and z axes. *)
Definition right_handed (a b c : vec3) : Prop := cross a b = c.

(** The three basis fields of the camera are defined and orthonormal, and
    the view axes (x = Right, y = Up, z = -Front: the camera looks down its
    negative z axis) are right-handed. *)
Definition camera_basis (c : Camera) : Prop :=
  exists front right up,
    Front c = Some front /\ Right c = Some right /\ Up c = Some up /\
    orthonormal front right up /\ right_handed right up (vneg3 front).

(** The front direction the Euler angles of the camera stand for. *)
Definition heading (c : Camera) : vec3 := euler_front (Yaw c) (Pitch c).

(** The basis fields are what [updateCameraVectors] computes from the
    angles and the world-up vector of the camera. *)
Definition derived (c : Camera) : Prop := updateCameraVectors c = c.

(** Two vectors are not parallel (and neither is zero): their cross product
    is not the zero vector. *)
Definition not_parallel (a b : vec3) : Prop :=
  dot (cross a b) (cross a b) <> 0.


(** The displacement of one call as the specification words it, to compare
    [ProcessKeyboard] with: [movementSpeed * deltaTime] along the basis
    vector of the direction. *)
Definition displacement (direction : Camera_Movement) (deltaTime : R)
    (c : Camera) : option vec3 :=
  let velocity := MovementSpeed c * deltaTime in
  match direction with
  | FORWARD => scaled (Front c) velocity
  | BACKWARD => scaled (Front c) (- velocity)
  | LEFT => scaled (Right c) (- velocity)
  | RIGHT => scaled (Right c) velocity
  | UP => scaled (Up c) velocity
  | DOWN => scaled (Up c) (- velocity)
  end.

(** Cameras on which the statements below are instantiated: the camera of
    [main.cpp], [Camera camera(glm::vec3(0.0f, 0.0f, 3.0f))]; a camera whose
    world-up vector is the x axis, looking down the negative z axis; and a
    camera built looking along its world-up vector. *)
Definition scene_camera : Camera := new_Camera (V3 0 0 3) (V3 0 1 0) YAW PITCH.

(** *** The rest of the class *)

(** The constructor with scalar values. *)
Definition new_Camera_scalars (posX posY posZ upX upY upZ yaw pitch : R)
    : Camera :=
  updateCameraVectors
    {| Position := Some (V3 posX posY posZ); Front := Some (V3 0 0 (-1));
       Up := None; Right := None;
       WorldUp := V3 upX upY upZ; Yaw := yaw; Pitch := pitch;
       MovementSpeed := SPEED; MouseSensitivity := SENSITIVITY;
       Zoom := ZOOM |}.

Definition calc_lookat_reverse (position target worldup : vec3)
    : option mat4 :=
  cameraDirection <~ normalize (vsub3 target position) ;;
  cameraRight <~ normalize (cross worldup cameraDirection) ;;
  let cameraUp := cross cameraDirection cameraRight in
  let translation := mat4_identity in
  let translation := mset I3 I0 (- v3x position) translation in
  let translation := mset I3 I1 (- v3y position) translation in
  let translation := mset I3 I2 (- v3z position) translation in
  let rotation := mat4_identity in
  let rotation := mset I0 I0 (v3x cameraRight) rotation in
  let rotation := mset I1 I0 (v3y cameraRight) rotation in
  let rotation := mset I2 I0 (v3z cameraRight) rotation in
  let rotation := mset I0 I1 (v3x cameraUp) rotation in
  let rotation := mset I1 I1 (v3y cameraUp) rotation in
  let rotation := mset I2 I1 (v3z cameraUp) rotation in
  let rotation := mset I0 I2 (v3x cameraDirection) rotation in
  let rotation := mset I1 I2 (v3y cameraDirection) rotation in
  let rotation := mset I2 I2 (v3z cameraDirection) rotation in
  Some (mat_mul rotation translation).

Definition GetViewMatrixReverse (c : Camera) : option mat4 :=
  position <~ Position c ;;
  front <~ Front c ;;
  up <~ Up c ;;
  calc_lookat_reverse position (vadd3 position front) up.

(** The x offsets of a sequence of calls of [ProcessMouseMovement], summed. *)
Definition total_xoffset (calls : list rotate_call) : R :=
  fold_right (fun call acc => fst (fst call) + acc) 0 calls.

(** The coordinates of the point [q] in the frame at [position] whose axes
    are [right], [up] and [direction]. *)
Definition in_frame (position right up direction q : vec3) : vec4 :=
  V4 (dot right (vsub3 q position)) (dot up (vsub3 q position))
     (dot direction (vsub3 q position)) 1.

(** A position as a homogeneous point. *)
Definition point (q : vec3) : vec4 := V4 (v3x q) (v3y q) (v3z q) 1.

End CameraH.

(** ** main.cpp: the globals and the input handlers *)

Module Sandbox.
Import Glm CameraH.

(** The keys [processInput] asks for; [pressed k] stands for
    [glfwGetKey(window, k) == GLFW_PRESS]. *)
Inductive Key :=
| KEY_ESCAPE | KEY_W | KEY_S | KEY_A | KEY_D | KEY_Q | KEY_E | KEY_P | KEY_O.

Definition SCR_WIDTH : R := 800.
Definition SCR_HEIGHT : R := 600.

(** The globals of [main.cpp] the handlers read and write, with the close
    flag of the window. *)
Record Globals := {
  camera : Camera;
  lastX : R;
  lastY : R;
  firstMouse : bool;
  heightScale : R;
  deltaTime : R;
  lastFrame : R;
  shouldClose : bool
}.

(** The globals as they are initialised. *)
Definition startup : Globals :=
  {| camera := new_Camera (V3 0 0 3) (V3 0 1 0) YAW PITCH;
     lastX := SCR_WIDTH / 2;
     lastY := SCR_HEIGHT / 2;
     firstMouse := true;
     heightScale := 0.1;
     deltaTime := 0;
     lastFrame := 0;
     shouldClose := false |}.

Definition set_camera (c : Camera) (g : Globals) : Globals :=
  {| camera := c; lastX := lastX g; lastY := lastY g;
     firstMouse := firstMouse g; heightScale := heightScale g;
     deltaTime := deltaTime g; lastFrame := lastFrame g;
     shouldClose := shouldClose g |}.

Definition set_heightScale (h : R) (g : Globals) : Globals :=
  {| camera := camera g; lastX := lastX g; lastY := lastY g;
     firstMouse := firstMouse g; heightScale := h;
     deltaTime := deltaTime g; lastFrame := lastFrame g;
     shouldClose := shouldClose g |}.

Definition set_shouldClose (b : bool) (g : Globals) : Globals :=
  {| camera := camera g; lastX := lastX g; lastY := lastY g;
     firstMouse := firstMouse g; heightScale := heightScale g;
     deltaTime := deltaTime g; lastFrame := lastFrame g;
     shouldClose := b |}.

(** [lastX = x; lastY = y;]. *)
Definition set_last (x y : R) (g : Globals) : Globals :=
  {| camera := camera g; lastX := x; lastY := y;
     firstMouse := firstMouse g; heightScale := heightScale g;
     deltaTime := deltaTime g; lastFrame := lastFrame g;
     shouldClose := shouldClose g |}.

Definition set_firstMouse (b : bool) (g : Globals) : Globals :=
  {| camera := camera g; lastX := lastX g; lastY := lastY g;
     firstMouse := b; heightScale := heightScale g;
     deltaTime := deltaTime g; lastFrame := lastFrame g;
     shouldClose := shouldClose g |}.

(** The timing at the head of the render loop. *)
Definition frame_time (currentFrame : R) (g : Globals) : Globals :=
  {| camera := camera g; lastX := lastX g; lastY := lastY g;
     firstMouse := firstMouse g; heightScale := heightScale g;
     deltaTime := currentFrame - lastFrame g; lastFrame := currentFrame;
     shouldClose := shouldClose g |}.

(** [if (pressed key) camera.ProcessKeyboard(direction, deltaTime);]. *)
Definition key_moves (pressed : Key -> bool) (key : Key)
    (direction : Camera_Movement) (g : Globals) : Globals :=
  if pressed key
  then set_camera (ProcessKeyboard direction (deltaTime g) (camera g)) g
  else g.

Definition processInput (pressed : Key -> bool) (g : Globals) : Globals :=
  let g := if pressed KEY_ESCAPE then set_shouldClose true g else g in
  let g := key_moves pressed KEY_W FORWARD g in
  let g := key_moves pressed KEY_S BACKWARD g in
  let g := key_moves pressed KEY_A LEFT g in
  let g := key_moves pressed KEY_D RIGHT g in
  let g := key_moves pressed KEY_Q DOWN g in
  let g := key_moves pressed KEY_E UP g in
  if pressed KEY_P then
    if Rgtb (heightScale g) 0
    then set_heightScale (heightScale g - 0.0005) g
    else set_heightScale 0 g
  else if pressed KEY_O then
    if Rltb (heightScale g) 1
    then set_heightScale (heightScale g + 0.0005) g
    else set_heightScale 1 g
  else g.

Definition mouse_callback (xposIn yposIn : R) (g : Globals) : Globals :=
  let xpos := xposIn in
  let ypos := yposIn in
  let g :=
    if firstMouse g then set_firstMouse false (set_last xpos ypos g) else g in
  let xoffset := xpos - lastX g in
  let yoffset := lastY g - ypos in
  let g := set_last xpos ypos g in
  set_camera (ProcessMouseMovement xoffset yoffset true (camera g)) g.

Definition scroll_callback (xoffset yoffset : R) (g : Globals) : Globals :=
  set_camera (ProcessMouseScroll yoffset (camera g)) g.

(** What happens to the globals in the render loop: a frame begins (the
    timing, then [processInput] with the keys held), or the event poll
    delivers a cursor position or a scroll to its callback. *)
Inductive event :=
| Frame (currentFrame : R) (pressed : Key -> bool)
| CursorPos (xpos ypos : R)
| Scroll (xoffset yoffset : R).

Definition handle (g : Globals) (e : event) : Globals :=
  match e with
  | Frame currentFrame pressed => processInput pressed (frame_time currentFrame g)
  | CursorPos xpos ypos => mouse_callback xpos ypos g
  | Scroll xoffset yoffset => scroll_callback xoffset yoffset g
  end.

Definition run (events : list event) (g : Globals) : Globals :=
  fold_left handle events g.



(** A sequence of cursor positions delivered to [mouse_callback]. *)
Definition cursor_moves (moves : list (R * R)) (g : Globals) : Globals :=
  fold_left (fun g '(xpos, ypos) => mouse_callback xpos ypos g) moves g.

(** The block of [renderQuad] that computes the tangent and the bitangent of
    a triangle from two of its edges and the differences of the texture
    coordinates along them; it is written out once for each triangle. *)
Definition tangent_space (edge1 edge2 : vec3) (deltaUV1 deltaUV2 : vec2)
    : option (vec3 * vec3) :=
  f <~ rdiv 1 (v2x deltaUV1 * v2y deltaUV2 - v2x deltaUV2 * v2y deltaUV1) ;;
  let tangent :=
    V3 (f * (v2y deltaUV2 * v3x edge1 - v2y deltaUV1 * v3x edge2))
       (f * (v2y deltaUV2 * v3y edge1 - v2y deltaUV1 * v3y edge2))
       (f * (v2y deltaUV2 * v3z edge1 - v2y deltaUV1 * v3z edge2)) in
  let bitangent :=
    V3 (f * (- v2x deltaUV2 * v3x edge1 + v2x deltaUV1 * v3x edge2))
       (f * (- v2x deltaUV2 * v3y edge1 + v2x deltaUV1 * v3y edge2))
       (f * (- v2x deltaUV2 * v3z edge1 + v2x deltaUV1 * v3z edge2)) in
  Some (tangent, bitangent).

(** The tangent and bitangent of the two triangles of the quad. *)
Definition renderQuad_tangents
    : option (vec3 * vec3) * option (vec3 * vec3) :=
  let pos1 := V3 (-1) 1 0 in
  let pos2 := V3 (-1) (-1) 0 in
  let pos3 := V3 1 (-1) 0 in
  let pos4 := V3 1 1 0 in
  let uv1 := V2 0 1 in
  let uv2 := V2 0 0 in
  let uv3 := V2 1 0 in
  let uv4 := V2 1 1 in
  (tangent_space (vsub3 pos2 pos1) (vsub3 pos3 pos1)
                 (vsub2 uv2 uv1) (vsub2 uv3 uv1),
   tangent_space (vsub3 pos3 pos1) (vsub3 pos4 pos1)
                 (vsub2 uv3 uv1) (vsub2 uv4 uv1)).

End Sandbox.

(** ** Binary32 numbers *)

Module Binary32.

(** The format of a GLSL [float]: 24 bits of precision, exponents below
    128. *)
Definition prec : Z := 24.
Definition emax : Z := 128.

Definition float := spec_float.

(** The operations, each rounded to nearest, ties to even; a division by
    zero gives an infinity or a NaN, as in IEEE 754. *)
Definition fadd : float -> float -> float := SFadd prec emax.
Definition fsub : float -> float -> float := SFsub prec emax.
Definition fmul : float -> float -> float := SFmul prec emax.
Definition fdiv : float -> float -> float := SFdiv prec emax.

(** [a < b] and [a <= b]: false when either side is a NaN. *)
Definition flt : float -> float -> bool := SFltb.
Definition fle : float -> float -> bool := SFleb.

(** The binary32 number nearest to an integer, and to the decimal literal
    [n / d]. *)
Definition of_Z (z : Z) : float := binary_normalize prec emax z 0 false.
Definition decimal (n d : Z) : float := fdiv (of_Z n) (of_Z d).

(** Zeros and finite numbers: neither an infinity nor a NaN. *)
Definition is_finite (x : float) : bool :=
  match x with
  | S754_zero _ | S754_finite _ _ _ => true
  | _ => false
  end.



(** The numbers of the format: mantissa and exponent in canonical form. *)
Definition valid (x : float) : bool := valid_binary prec emax x.

(** The real number a binary32 number stands for (0 for an infinity and for
    a NaN, which stand for none). *)
Definition value (x : float) : R :=
  match x with
  | S754_finite s m e => IZR (cond_Zopp s (Zpos m)) * powerRZ 2 e
  | _ => 0
  end.

(** The same value counted in units of [2^-149], the least positive
    number of the format. *)
Definition scaled (x : float) : Z :=
  match x with
  | S754_finite s m e => cond_Zopp s (Zpos m * 2 ^ (e + 149))
  | _ => 0%Z
  end.

Record vec2 := V2 { v2x : float; v2y : float }.
Record vec3 := V3 { v3x : float; v3y : float; v3z : float }.

Definition xy (v : vec3) : vec2 := V2 (v3x v) (v3y v).

Definition vadd2 (a b : vec2) : vec2 :=
  V2 (fadd (v2x a) (v2x b)) (fadd (v2y a) (v2y b)).
Definition vsub2 (a b : vec2) : vec2 :=
  V2 (fsub (v2x a) (v2x b)) (fsub (v2y a) (v2y b)).
Definition vscale2 (a : vec2) (k : float) : vec2 :=
  V2 (fmul (v2x a) k) (fmul (v2y a) k).
Definition vdiv2 (a : vec2) (k : float) : vec2 :=
  V2 (fdiv (v2x a) k) (fdiv (v2y a) k).

End Binary32.

(** ** [ParallaxMapping] of parallax_mapping.fs on binary32 numbers *)

Module ParallaxF32.
Import Binary32.

(** The uniforms [ParallaxMapping] reads; the sampler is the function from
    texture coordinates to the [.r] of the texel. *)
Record Uniforms := {
  depthMap : vec2 -> float;
  heightScale : float
}.

Definition numLayers : float := of_Z 10.

Record march := {
  currentTexCoords : vec2;
  currentDepthMapValue : float;
  currentLayerDepth : float
}.

(** The body of the loop. *)
Definition layer_step (u : Uniforms) (deltaTexCoords : vec2)
    (layerDepth : float) (s : march) : march :=
  let currentTexCoords' := vsub2 (currentTexCoords s) deltaTexCoords in
  {| currentTexCoords := currentTexCoords';
     currentDepthMapValue := depthMap u currentTexCoords';
     currentLayerDepth := fadd (currentLayerDepth s) layerDepth |}.

(** [while (currentLayerDepth < currentDepthMapValue) { ... }], with the
    number of times the body ran; each run takes one unit of [fuel]. *)
Fixpoint layer_loop (fuel : nat) (u : Uniforms) (deltaTexCoords : vec2)
    (layerDepth : float) (s : march) : result (nat * march) :=
  if flt (currentLayerDepth s) (currentDepthMapValue s) then
    match fuel with
    | O => Err OutOfFuel
    | S fuel' =>
        '(n, s') <- layer_loop fuel' u deltaTexCoords layerDepth
                      (layer_step u deltaTexCoords layerDepth s) ;;
        Ok (S n, s')
    end
  else Ok (O, s).

Definition march_start (u : Uniforms) (texCoords : vec2) : march :=
  {| currentTexCoords := texCoords;
     currentDepthMapValue := depthMap u texCoords;
     currentLayerDepth := of_Z 0 |}.

Record marched := {
  layerDepth : float;
  deltaTexCoords : vec2;
  iterations : nat;
  final : march
}.

(** [ParallaxMapping] up to the end of the loop.  No division is guarded
    here: one by zero yields an infinity or a NaN and the function goes
    on. *)
Definition ParallaxMapping_march (fuel : nat) (u : Uniforms)
    (texCoords : vec2) (viewDir : vec3) : result marched :=
  let layerDepth := fdiv (of_Z 1) numLayers in
  let P := vscale2 (vdiv2 (xy viewDir) (v3z viewDir)) (heightScale u) in
  let deltaTexCoords := vdiv2 P numLayers in
  '(n, s) <- layer_loop fuel u deltaTexCoords layerDepth
               (march_start u texCoords) ;;
  Ok {| layerDepth := layerDepth; deltaTexCoords := deltaTexCoords;
        iterations := n; final := s |}.

(** [ParallaxMapping] after the loop. *)
Definition ParallaxMapping_refine (u : Uniforms) (m : marched) : vec2 :=
  let s := final m in
  let prevTexCoords := vadd2 (currentTexCoords s) (deltaTexCoords m) in
  let afterDepth := fsub (currentDepthMapValue s) (currentLayerDepth s) in
  let beforeDepth :=
    fadd (fsub (depthMap u prevTexCoords) (currentLayerDepth s))
         (layerDepth m) in
  let weight := fdiv afterDepth (fsub afterDepth beforeDepth) in
  vadd2 (vscale2 prevTexCoords weight)
        (vscale2 (currentTexCoords s) (fsub (of_Z 1) weight)).

Definition ParallaxMapping (fuel : nat) (u : Uniforms) (texCoords : vec2)
    (viewDir : vec3) : result vec2 :=
  m <- ParallaxMapping_march fuel u texCoords viewDir ;;
  Ok (ParallaxMapping_refine u m).

(** The layer depth after [k] turns of the loop: the sum of [k] terms
    [layerDepth], each addition rounded. *)
Fixpoint layer_sum (k : nat) : float :=
  match k with
  | O => of_Z 0
  | S k' => fadd (layer_sum k') (fdiv (of_Z 1) numLayers)
  end.

(** Inputs on which the statements below are instantiated: uniforms with a
    height field constant at [h]; the centre of the texture and the
    coordinate (0.23, 0.23); a view straight at the surface, one along it,
    and one whose z-component is [2^-140]; and the binary32 number after
    0.7, which is 0x3F333334. *)
Definition flat_uniforms (h scale : float) : Uniforms :=
  {| depthMap := fun _ => h; heightScale := scale |}.
Definition centre : vec2 := V2 (decimal 5 10) (decimal 5 10).
Definition facing : vec3 := V3 (of_Z 0) (of_Z 0) (of_Z 1).
Definition grazing : vec3 := V3 (of_Z 1) (of_Z 0) (of_Z 0).
Definition above_seven_tenths : float := S754_finite false 11744052 (-24).

End ParallaxF32.

(** ** Facts about the vector operations *)

Module GlmFacts.
Import Glm.

Lemma Rltb_true (a b : R) : Rltb a b = true <-> a < b.
Proof.
  unfold Rltb. destruct (Rlt_dec a b); split; intro H; try easy.
Qed.

Lemma Rltb_false (a b : R) : Rltb a b = false <-> b <= a.
Proof.
  unfold Rltb. destruct (Rlt_dec a b); split; intro H; try easy; lra.
Qed.

Lemma rdiv_defined (a b : R) : b <> 0 -> rdiv a b = Some (a / b).
Proof.
  intro Hb. unfold rdiv. destruct (Req_dec_T b 0); [contradiction | reflexivity].
Qed.

Lemma rdiv_by_zero (a : R) : rdiv a 0 = None.
Proof.
  unfold rdiv. destruct (Req_dec_T 0 0); [reflexivity | contradiction].
Qed.

Lemma vdiv2_defined (a : vec2) (s : R) :
  s <> 0 -> vdiv2 a s = Some (V2 (v2x a / s) (v2y a / s)).
Proof.
  intro Hs. unfold vdiv2. destruct (Req_dec_T s 0); [contradiction | reflexivity].
Qed.

Lemma vdiv2_by_zero (a : vec2) : vdiv2 a 0 = None.
Proof.
  unfold vdiv2. destruct (Req_dec_T 0 0); [reflexivity | contradiction].
Qed.

Lemma vdiv2_None (a : vec2) (s : R) : vdiv2 a s = None <-> s = 0.
Proof.
  unfold vdiv2. destruct (Req_dec_T s 0); split; intro H; easy.
Qed.

(** [Rceil r] is the one integer [z] with [z - 1 < r <= z]. *)
Lemma Rceil_bounds (r : R) : IZR (Rceil r) - 1 < r <= IZR (Rceil r).
Proof.
  unfold Rceil. destruct (archimed (- r)) as [H1 H2].
  rewrite minus_IZR. lra.
Qed.

Lemma Rceil_unique (r : R) (z : Z) : IZR z - 1 < r <= IZR z -> Rceil r = z.
Proof.
  intros [H1 H2]. unfold Rceil.
  assert (E : (1 - z)%Z = up (- r)).
  { apply tech_up; rewrite minus_IZR; lra. }
  lia.
Qed.

Lemma dot_self_nonneg (v : vec3) : 0 <= dot v v.
Proof. unfold dot. nra. Qed.

Lemma dot_self_zero (v : vec3) : dot v v = 0 -> v = V3 0 0 0.
Proof.
  destruct v as [a b c]. unfold dot. simpl. intro H.
  assert (a = 0) by nra. assert (b = 0) by nra. assert (c = 0) by nra.
  subst. reflexivity.
Qed.

(** [normalize] is defined exactly off the zero vector, and scales its
    argument to length one by a positive factor. *)
Lemma normalize_defined (v : vec3) :
  dot v v <> 0 ->
  exists k, 0 < k /\ k * k * dot v v = 1 /\ normalize v = Some (vscale3 v k).
Proof.
  intro Hv. pose proof (dot_self_nonneg v) as Hn.
  assert (Hs : 0 < sqrt (dot v v)) by (apply sqrt_lt_R0; lra).
  exists (1 / sqrt (dot v v)). split; [| split].
  - apply Rdiv_lt_0_compat; lra.
  - pose proof (sqrt_sqrt (dot v v) Hn) as Hq.
    field_simplify_eq; [| lra]. lra.
  - unfold normalize, inversesqrt. rewrite rdiv_defined by lra. reflexivity.
Qed.

Lemma normalize_zero (v : vec3) : dot v v = 0 -> normalize v = None.
Proof.
  intro Hv. unfold normalize, inversesqrt. rewrite Hv, sqrt_0, rdiv_by_zero.
  reflexivity.
Qed.

Lemma normalize_Some (v w : vec3) :
  normalize v = Some w -> dot v v <> 0.
Proof.
  intros H Hv. rewrite (normalize_zero v Hv) in H. discriminate.
Qed.

(** A vector of length one is left as it is. *)
Lemma normalize_unit (v : vec3) : dot v v = 1 -> normalize v = Some v.
Proof.
  intro Hv. unfold normalize, inversesqrt. rewrite Hv, sqrt_1.
  rewrite rdiv_defined by lra. destruct v as [a b c]. unfold vscale3. simpl.
  f_equal. f_equal; field.
Qed.

End GlmFacts.

(** ** The layer march of [ParallaxMapping] *)

Module ParallaxFacts.
Import Glm GlmFacts Parallax.

Lemma numLayers_nonzero : numLayers <> 0.
Proof. unfold numLayers. lra. Qed.

Lemma vsub2_zero (p : vec2) : vsub2 p (V2 0 0) = p.
Proof. destruct p as [a b]. unfold vsub2. simpl. f_equal; ring. Qed.

Lemma vadd2_zero (p : vec2) : vadd2 p (V2 0 0) = p.
Proof. destruct p as [a b]. unfold vadd2. simpl. f_equal; ring. Qed.

Lemma lerp_same (p : vec2) (w : R) :
  vadd2 (vscale2 p w) (vscale2 p (1 - w)) = p.
Proof. destruct p as [a b]. unfold vadd2, vscale2. simpl. f_equal; ring. Qed.

(** The loop exits at once when the layer depth has reached the sample. *)
Lemma layer_loop_exit fuel u delta ld s :
  currentDepthMapValue s <= currentLayerDepth s ->
  layer_loop fuel u delta ld s = Ok (O, s).
Proof.
  intro H. apply Rltb_false in H. destruct fuel; simpl; rewrite H; reflexivity.
Qed.

(** One turn of the loop. *)
Lemma layer_loop_turn fuel u delta ld s :
  currentLayerDepth s < currentDepthMapValue s ->
  layer_loop (S fuel) u delta ld s =
  ('(n, s') <- layer_loop fuel u delta ld (layer_step u delta ld s) ;;
   Ok (S n, s')).
Proof.
  intro H. apply Rltb_true in H. simpl. rewrite H. reflexivity.
Qed.


Section Steady.
(** The march over a region on which the depth map reads one value [h]:
    [reach] holds the coordinates the march can visit. *)
Variables (u : Uniforms) (delta : vec2) (reach : vec2 -> Prop) (h : R).
Hypothesis reach_depth : forall p, reach p -> depthMap u p = h.
Hypothesis reach_step : forall p, reach p -> reach (vsub2 p delta).

(** From layer [k] the loop stops at the first layer whose depth is not
    below [h], given fuel for the layers up to any [N] that is high
    enough. *)
Lemma layer_loop_steady (N : nat) :
  h <= INR N * (1 / numLayers) ->
  forall fuel k s,
    reach (currentTexCoords s) ->
    currentDepthMapValue s = h ->
    currentLayerDepth s = INR k * (1 / numLayers) ->
    (N <= fuel + k)%nat ->
    exists n s',
      layer_loop fuel u delta (1 / numLayers) s = Ok (n, s') /\
      reach (currentTexCoords s') /\
      currentDepthMapValue s' = h /\
      currentLayerDepth s' = INR (k + n) * (1 / numLayers) /\
      h <= INR (k + n) * (1 / numLayers) /\
      (n <> O -> INR (k + n) * (1 / numLayers) - 1 / numLayers < h).
Proof.
  unfold numLayers. intro HN.
  induction fuel as [| fuel IH]; intros k s Hr Hd HL Hk.
  - destruct (Rlt_le_dec (currentLayerDepth s) (currentDepthMapValue s))
      as [Hlt | Hge].
    + exfalso. assert (INR k < INR N) by lra.
      apply INR_lt in H. lia.
    + exists O, s. rewrite layer_loop_exit by assumption.
      rewrite Nat.add_0_r. repeat split; try assumption; try lra.
      intro H; contradiction.
  - destruct (Rlt_le_dec (currentLayerDepth s) (currentDepthMapValue s))
      as [Hlt | Hge].
    + rewrite layer_loop_turn by assumption.
      destruct (IH (S k) (layer_step u delta (1 / 10) s))
        as (n & s' & E & Hr' & Hd' & HL' & Hh & Hmin).
      * apply reach_step, Hr.
      * apply reach_depth, reach_step, Hr.
      * cbn [layer_step currentLayerDepth]. rewrite HL, S_INR. lra.
      * lia.
      * rewrite E. simpl. exists (S n), s'.
        replace (k + S n)%nat with (S k + n)%nat by lia.
        repeat split; try assumption.
        intros _. destruct n as [| n].
        -- rewrite Nat.add_0_r, S_INR. lra.
        -- apply Hmin. discriminate.
    + exists O, s. rewrite layer_loop_exit by assumption.
      rewrite Nat.add_0_r. repeat split; try assumption; try lra.
      intro H; contradiction.
Qed.
End Steady.

(** The march of [ParallaxMapping] once its two set-up divisions are done. *)
Lemma ParallaxMapping_march_unfold fuel u texCoords viewDir :
  v3z viewDir <> 0 ->
  ParallaxMapping_march fuel u texCoords viewDir =
  let q := V2 (v3x viewDir / v3z viewDir) (v3y viewDir / v3z viewDir) in
  let P := vscale2 q (heightScale u) in
  let delta := V2 (v2x P / numLayers) (v2y P / numLayers) in
  ('(n, s) <- layer_loop fuel u delta (1 / numLayers) (march_start u texCoords) ;;
   Ok {| layerDepth := 1 / numLayers; deltaTexCoords := delta;
         iterations := n; final := s |}).
Proof.
  intro Hz. unfold ParallaxMapping_march.
  rewrite (rdiv_defined 1 numLayers numLayers_nonzero).
  rewrite (vdiv2_defined (xy viewDir) (v3z viewDir) Hz). simpl.
  rewrite (vdiv2_defined _ numLayers numLayers_nonzero). reflexivity.
Qed.

Lemma ParallaxMapping_horizontal_view fuel u texCoords viewDir :
  v3z viewDir = 0 ->
  ParallaxMapping fuel u texCoords viewDir = Err DivByZero.
Proof.
  intro Hz. unfold ParallaxMapping, ParallaxMapping_march.
  rewrite (rdiv_defined 1 numLayers numLayers_nonzero), Hz, vdiv2_by_zero.
  reflexivity.
Qed.

(** With the depth samples in [0,1], ten layers exhaust the depth range. *)
Lemma layer_loop_bounded u delta :
  (forall p, 0 <= depthMap u p <= 1) ->
  forall fuel k s,
    currentDepthMapValue s <= 1 ->
    currentLayerDepth s = INR k * (1 / numLayers) ->
    (10 <= fuel + k)%nat ->
    exists n s',
      layer_loop fuel u delta (1 / numLayers) s = Ok (n, s') /\
      (k + n <= Nat.max k 10)%nat.
Proof.
  unfold numLayers. intro Hrange.
  induction fuel as [| fuel IH]; intros k s Hd HL Hk.
  - assert (Hk10 : 10 <= INR k).
    { replace 10 with (INR 10) by (simpl; lra). apply le_INR. lia. }
    exists O, s. rewrite layer_loop_exit by lra. split; [reflexivity | lia].
  - destruct (Rlt_le_dec (currentLayerDepth s) (currentDepthMapValue s))
      as [Hlt | Hge].
    + rewrite layer_loop_turn by assumption.
      assert (Hk10 : (k < 10)%nat).
      { apply INR_lt. replace (INR 10) with 10 by (simpl; lra). lra. }
      destruct (IH (S k) (layer_step u delta (1 / 10) s)) as (n & s' & E & Hn).
      * apply Hrange.
      * cbn [layer_step currentLayerDepth]. rewrite HL, S_INR. lra.
      * lia.
      * rewrite E. simpl. exists (S n), s'. split; [reflexivity | lia].
    + exists O, s. rewrite layer_loop_exit by assumption.
      split; [reflexivity | lia].
Qed.


(** On the reals, with a zero height scale the march does not move: given
    fuel for the layers below the sample at [texCoords], the result is
    [texCoords]. *)
Lemma zero_scale_unmoved u texCoords viewDir (N : nat) fuel :
  heightScale u = 0 -> v3z viewDir <> 0 ->
  depthMap u texCoords <= INR N * (1 / numLayers) -> (N <= fuel)%nat ->
  exists m,
    ParallaxMapping_march fuel u texCoords viewDir = Ok m /\
    deltaTexCoords m = V2 0 0 /\
    ParallaxMapping fuel u texCoords viewDir = Ok texCoords.
Proof.
  intros Hs Hz HN Hfuel. unfold ParallaxMapping.
  rewrite ParallaxMapping_march_unfold by assumption. cbv zeta.
  rewrite Hs.
  match goal with
  | |- context [layer_loop fuel u ?d _ _] =>
      replace d with (V2 0 0)
        by (unfold vscale2, numLayers; simpl; f_equal; field; lra)
  end.
  assert (Hstay : forall p, texCoords = p -> texCoords = vsub2 p (V2 0 0))
    by (intros p <-; symmetry; apply vsub2_zero).
  assert (Hsame : forall p, texCoords = p -> depthMap u p = depthMap u texCoords)
    by (intros p <-; reflexivity).
  destruct (layer_loop_steady u (V2 0 0) (eq texCoords) (depthMap u texCoords)
              Hsame Hstay N HN
              fuel O (march_start u texCoords) eq_refl eq_refl)
    as (n & s' & E & Hr & Hd & HL & _ & _); [simpl; lra | lia |].
  rewrite E. simpl. eexists. split; [reflexivity |]. split; [reflexivity |].
  unfold ParallaxMapping_refine. simpl.
  rewrite <- Hr, vadd2_zero, Hd.
  rewrite rdiv_defined by (unfold numLayers; lra). simpl.
  rewrite lerp_same. reflexivity.
Qed.

(** C3.  With every depth sample in [0,1] the loop of [ParallaxMapping]
    terminates within ten turns of its body: fuel for ten turns is enough
    from the state in which the loop is entered, whatever the shift and the
    coordinate, and so for every call whose set-up is defined. *)
Theorem march_terminates u fuel :
  (forall p, 0 <= depthMap u p <= 1) -> (10 <= fuel)%nat ->
  (forall delta texCoords, exists n s,
      layer_loop fuel u delta (1 / numLayers) (march_start u texCoords)
        = Ok (n, s) /\ (n <= 10)%nat) /\
  (forall texCoords viewDir, v3z viewDir <> 0 -> exists m,
      ParallaxMapping_march fuel u texCoords viewDir = Ok m /\
      (iterations m <= 10)%nat).
Proof.
  intros Hrange Hfuel.
  assert (Hloop : forall delta texCoords, exists n s,
             layer_loop fuel u delta (1 / numLayers) (march_start u texCoords)
               = Ok (n, s) /\ (n <= 10)%nat).
  { intros delta texCoords.
    destruct (layer_loop_bounded u delta Hrange fuel O
                (march_start u texCoords)) as (n & s & E & Hn).
    - apply Hrange.
    - simpl. lra.
    - lia.
    - exists n, s. split; [exact E | lia]. }
  split; [exact Hloop |].
  intros texCoords viewDir Hz.
  rewrite ParallaxMapping_march_unfold by assumption. cbv zeta.
  match goal with
  | |- context [layer_loop fuel u ?d _ _] =>
      destruct (Hloop d texCoords) as (n & s & E & Hn)
  end.
  rewrite E. simpl. eexists. split; [reflexivity | exact Hn].
Qed.

(** C5.  Nothing guards the division by [viewDir.z]: it divides by zero
    exactly when [viewDir.z = 0], and every call of [ParallaxMapping] with
    such a view direction ends in that error. *)
Theorem view_z_division_unguarded fuel u texCoords viewDir :
  (guard (vdiv2 (xy viewDir) (v3z viewDir)) = Err DivByZero
   <-> v3z viewDir = 0) /\
  (v3z viewDir = 0 ->
   ParallaxMapping fuel u texCoords viewDir = Err DivByZero).
Proof.
  split.
  - unfold vdiv2. destruct (Req_dec_T (v3z viewDir) 0); simpl;
      split; intro H; try easy.
  - apply ParallaxMapping_horizontal_view.
Qed.

Lemma lighting_not_discarded fs_in viewDir normalTexel color :
  lighting fs_in viewDir normalTexel color <> Ok Discarded.
Proof.
  unfold lighting.
  destruct (normalize (vsubs3 (vscale3 normalTexel 2) 1)); simpl;
    [| discriminate].
  destruct (normalize (vsub3 (TangentLightPos fs_in) (TangentFragPos fs_in)));
    simpl; [| discriminate].
  destruct (normalize (vadd3 v0 viewDir)); simpl; discriminate.
Qed.

(** C4.  [main] discards the fragment exactly when the coordinate that
    [ParallaxMapping] returned has a component below 0 or above 1; a
    coordinate inside the unit square is kept, and it is the coordinate at
    which the normal map and the diffuse map are read. *)
Theorem discard_iff_outside fuel u fs_in viewDir texCoords :
  normalize (vsub3 (TangentViewPos fs_in) (TangentFragPos fs_in))
    = Some viewDir ->
  ParallaxMapping fuel u (TexCoords fs_in) viewDir = Ok texCoords ->
  (main fuel u fs_in = Ok Discarded <->
   v2x texCoords < 0 \/ 1 < v2x texCoords \/
   v2y texCoords < 0 \/ 1 < v2y texCoords) /\
  (0 <= v2x texCoords <= 1 /\ 0 <= v2y texCoords <= 1 ->
   main fuel u fs_in =
   lighting fs_in viewDir (normalMap u texCoords) (diffuseMap u texCoords)).
Proof.
  intros Hv Hp. unfold main. rewrite Hv. simpl. rewrite Hp. simpl.
  unfold Rgtb, Rltb.
  destruct (Rlt_dec 1 (v2x texCoords)); destruct (Rlt_dec 1 (v2y texCoords));
    destruct (Rlt_dec (v2x texCoords) 0); destruct (Rlt_dec (v2y texCoords) 0);
    simpl; split;
    try (split; [intros _; lra | reflexivity]);
    try (intros; lra);
    try reflexivity.
  split.
  - intro H. exfalso. exact (lighting_not_discarded _ _ _ _ H).
  - lra.
Qed.

(** *** The statements on concrete inputs *)

Lemma centre_fragment_view :
  normalize (vsub3 (TangentViewPos centre_fragment)
                   (TangentFragPos centre_fragment)) = Some facing.
Proof.
  replace (vsub3 (TangentViewPos centre_fragment)
                 (TangentFragPos centre_fragment)) with facing
    by (unfold facing, vsub3; simpl; f_equal; ring).
  apply normalize_unit. unfold dot, facing. simpl. ring.
Qed.

Lemma flat_centre_unmoved :
  ParallaxMapping 10 (flat_uniforms 0 0) centre facing = Ok centre.
Proof.
  destruct (zero_scale_unmoved (flat_uniforms 0 0) centre facing 0 10)
    as (m & _ & _ & E); try reflexivity; try lia.
  - simpl. lra.
  - unfold numLayers. simpl. lra.
  - exact E.
Qed.

Lemma march_terminates_witness :
  (forall delta texCoords, exists n s,
      layer_loop 10 (flat_uniforms 1 0.1) delta (1 / numLayers)
        (march_start (flat_uniforms 1 0.1) texCoords) = Ok (n, s) /\
      (n <= 10)%nat) /\
  (forall texCoords viewDir, v3z viewDir <> 0 -> exists m,
      ParallaxMapping_march 10 (flat_uniforms 1 0.1) texCoords viewDir = Ok m /\
      (iterations m <= 10)%nat).
Proof.
  apply (march_terminates (flat_uniforms 1 0.1) 10).
  - intro p. simpl. lra.
  - apply le_n.
Defined.

Lemma view_z_division_unguarded_witness :
  ParallaxMapping 10 (flat_uniforms 0.5 0.1) centre grazing = Err DivByZero.
Proof.
  apply (proj2 (view_z_division_unguarded 10 (flat_uniforms 0.5 0.1)
                  centre grazing)).
  reflexivity.
Defined.

Lemma discard_iff_outside_witness :
  (main 10 (flat_uniforms 0 0) centre_fragment = Ok Discarded <->
   v2x centre < 0 \/ 1 < v2x centre \/ v2y centre < 0 \/ 1 < v2y centre) /\
  (0 <= v2x centre <= 1 /\ 0 <= v2y centre <= 1 ->
   main 10 (flat_uniforms 0 0) centre_fragment =
   lighting centre_fragment facing
     (normalMap (flat_uniforms 0 0) centre)
     (diffuseMap (flat_uniforms 0 0) centre)).
Proof.
  apply (discard_iff_outside 10 (flat_uniforms 0 0) centre_fragment
           facing centre).
  - exact centre_fragment_view.
  - exact flat_centre_unmoved.
Defined.

End ParallaxFacts.

(** ** Binary32 numbers: order and zeros *)

Module Binary32Facts.
Import Binary32.
#[local] Open Scope Z_scope.

Lemma digits2_pos_bounds (m : positive) :
  2 ^ (Zpos (digits2_pos m) - 1) <= Zpos m < 2 ^ Zpos (digits2_pos m).
Proof.
  induction m as [m IH | m IH |]; cbn [digits2_pos].
  - rewrite Pos2Z.inj_succ.
    replace (Z.succ (Zpos (digits2_pos m)) - 1)
      with (Z.succ (Zpos (digits2_pos m) - 1)) by lia.
    rewrite !Z.pow_succ_r by lia. lia.
  - rewrite Pos2Z.inj_succ.
    replace (Z.succ (Zpos (digits2_pos m)) - 1)
      with (Z.succ (Zpos (digits2_pos m) - 1)) by lia.
    rewrite !Z.pow_succ_r by lia. lia.
  - simpl. lia.
Qed.

(** The canonical form: the exponent is at least -149, the mantissa has at
    most 24 bits, and exactly 24 above the least exponent. *)
Lemma bounded_canonical (m : positive) (e : Z) :
  bounded prec emax m e = true ->
  -149 <= e <= 104 /\ Zpos m < 2 ^ 24 /\ (-149 < e -> 2 ^ 23 <= Zpos m).
Proof.
  unfold bounded, canonical_mantissa, fexp, emin, prec, emax.
  intro H. apply andb_true_iff in H. destruct H as [Hc He].
  apply Z.eqb_eq in Hc. apply Z.leb_le in He.
  pose proof (digits2_pos_bounds m) as [Hlo Hhi].
  set (d := Zpos (digits2_pos m)) in *.
  assert (Hd : d <= 24 /\ -149 <= e /\ (-149 < e -> d = 24)) by lia.
  destruct Hd as (Hd & Hemin & Hnorm).
  split; [lia |]. split.
  - apply Z.lt_le_trans with (2 ^ d); [exact Hhi |].
    apply Z.pow_le_mono_r; lia.
  - intro Hgt. rewrite (Hnorm Hgt) in Hlo. exact Hlo.
Qed.

Lemma canonical_lt (m1 m2 : positive) (e1 e2 : Z) :
  bounded prec emax m1 e1 = true -> bounded prec emax m2 e2 = true ->
  e1 < e2 -> Zpos m1 * 2 ^ (e1 + 149) < Zpos m2 * 2 ^ (e2 + 149).
Proof.
  intros H1 H2 He.
  apply bounded_canonical in H1. destruct H1 as (R1 & U1 & _).
  apply bounded_canonical in H2. destruct H2 as (R2 & _ & L2).
  assert (Hnorm : -149 < e2) by lia. specialize (L2 Hnorm).
  assert (Hp : 0 < 2 ^ (e1 + 149)) by (apply Z.pow_pos_nonneg; lia).
  assert (Hs : 2 * 2 ^ (e1 + 149) <= 2 ^ (e2 + 149)).
  { rewrite <- Z.pow_succ_r by lia. apply Z.pow_le_mono_r; lia. }
  change (2 ^ 24) with 16777216 in U1. change (2 ^ 23) with 8388608 in L2.
  nia.
Qed.

Lemma compare_finite_pos (m1 m2 : positive) (e1 e2 : Z) :
  bounded prec emax m1 e1 = true -> bounded prec emax m2 e2 = true ->
  match e1 ?= e2 with
  | Eq => Pos.compare_cont Eq m1 m2
  | Lt => Lt
  | Gt => Gt
  end = (Zpos m1 * 2 ^ (e1 + 149) ?= Zpos m2 * 2 ^ (e2 + 149)).
Proof.
  intros H1 H2. destruct (Z.compare_spec e1 e2) as [E | L | G].
  - subst e2. pose proof (bounded_canonical _ _ H1) as (R1 & _ & _).
    rewrite <- Zmult_compare_compat_r
      by (apply Z.lt_gt, Z.pow_pos_nonneg; lia).
    reflexivity.
  - symmetry. apply Z.compare_lt_iff. apply canonical_lt; assumption.
  - symmetry. apply Z.compare_gt_iff. apply canonical_lt; assumption.
Qed.

(** On the numbers of the format the comparison is the order of the
    values. *)
Lemma SFcompare_scaled (x y : float) :
  valid x = true -> valid y = true ->
  is_finite x = true -> is_finite y = true ->
  SFcompare x y = Some (scaled x ?= scaled y).
Proof.
  intros Vx Vy Fx Fy.
  destruct x as [sx | sx | | sx mx ex]; try discriminate;
    destruct y as [sy | sy | | sy my ey]; try discriminate;
    cbn [SFcompare scaled cond_Zopp].
  - reflexivity.
  - pose proof (bounded_canonical _ _ Vy) as (R & _ & _).
    assert (0 < Zpos my * 2 ^ (ey + 149))
      by (apply Z.mul_pos_pos; [lia | apply Z.pow_pos_nonneg; lia]).
    destruct sy; cbn [cond_Zopp]; f_equal; symmetry;
      [apply Z.compare_gt_iff | apply Z.compare_lt_iff]; lia.
  - pose proof (bounded_canonical _ _ Vx) as (R & _ & _).
    assert (0 < Zpos mx * 2 ^ (ex + 149))
      by (apply Z.mul_pos_pos; [lia | apply Z.pow_pos_nonneg; lia]).
    destruct sx; cbn [cond_Zopp]; f_equal; symmetry;
      [apply Z.compare_lt_iff | apply Z.compare_gt_iff]; lia.
  - pose proof (bounded_canonical _ _ Vx) as (Rx & _ & _).
    pose proof (bounded_canonical _ _ Vy) as (Ry & _ & _).
    assert (0 < Zpos mx * 2 ^ (ex + 149))
      by (apply Z.mul_pos_pos; [lia | apply Z.pow_pos_nonneg; lia]).
    assert (0 < Zpos my * 2 ^ (ey + 149))
      by (apply Z.mul_pos_pos; [lia | apply Z.pow_pos_nonneg; lia]).
    unfold valid, valid_binary in Vx, Vy.
    destruct sx, sy; cbn [cond_Zopp]; f_equal.
    + rewrite Z.compare_opp.
      rewrite (Z.compare_antisym (Zpos mx * 2 ^ (ex + 149))).
      rewrite <- (compare_finite_pos mx my ex ey) by assumption.
      destruct (ex ?= ey); reflexivity.
    + symmetry. apply Z.compare_lt_iff. lia.
    + symmetry. apply Z.compare_gt_iff. lia.
    + apply compare_finite_pos; assumption.
Qed.

Lemma flt_scaled (x y : float) :
  valid x = true -> valid y = true ->
  is_finite x = true -> is_finite y = true ->
  flt x y = (scaled x <? scaled y).
Proof.
  intros Vx Vy Fx Fy. unfold flt, SFltb, Z.ltb.
  rewrite SFcompare_scaled by assumption. reflexivity.
Qed.

Lemma fle_scaled (x y : float) :
  valid x = true -> valid y = true ->
  is_finite x = true -> is_finite y = true ->
  fle x y = (scaled x <=? scaled y).
Proof.
  intros Vx Vy Fx Fy. unfold fle, SFleb, Z.leb.
  rewrite SFcompare_scaled by assumption.
  destruct (scaled x ?= scaled y); reflexivity.
Qed.

Lemma powerRZ_2_scaled (e : Z) :
  -149 <= e -> (powerRZ 2 e = IZR (2 ^ (e + 149)) / IZR (2 ^ 149))%R.
Proof.
  intro He.
  assert (H2 : (2 <> 0)%R) by lra.
  assert (Hpos : forall k, 0 <= k -> IZR (2 ^ k) = powerRZ 2 k).
  { intros k Hk. destruct k as [| p | p]; [reflexivity | | lia].
    apply Zpower_pos_powerRZ. }
  rewrite !Hpos by lia.
  replace e with ((e + 149) + - 149) at 1 by lia.
  rewrite powerRZ_add by exact H2.
  unfold Rdiv. f_equal.
Qed.

(** The value of a number of the format is [scaled] units of [2^-149]. *)
Lemma value_scaled (x : float) :
  valid x = true -> (value x = IZR (scaled x) / IZR (2 ^ 149))%R.
Proof.
  intro V. destruct x as [s | s | | s m e]; cbn [value scaled];
    try (unfold Rdiv; rewrite Rmult_0_l; reflexivity).
  pose proof (bounded_canonical _ _ V) as (Re & _ & _).
  rewrite powerRZ_2_scaled by lia.
  destruct s; cbn [cond_Zopp]; rewrite ?opp_IZR, mult_IZR; unfold Rdiv; ring.
Qed.

Lemma scaled_unit_pos : (0 < IZR (2 ^ 149))%R.
Proof. apply IZR_lt. reflexivity. Qed.

Lemma flt_value (x y : float) :
  valid x = true -> valid y = true ->
  is_finite x = true -> is_finite y = true ->
  flt x y = true <-> (value x < value y)%R.
Proof.
  intros Vx Vy Fx Fy. rewrite flt_scaled, !value_scaled by assumption.
  pose proof scaled_unit_pos as Hu. rewrite Z.ltb_lt. split; intro H.
  - apply Rmult_lt_compat_r; [apply Rinv_0_lt_compat, Hu | apply IZR_lt, H].
  - apply lt_IZR. apply Rmult_lt_reg_r with (/ IZR (2 ^ 149))%R;
      [apply Rinv_0_lt_compat, Hu | exact H].
Qed.

Lemma flt_false_value (x y : float) :
  valid x = true -> valid y = true ->
  is_finite x = true -> is_finite y = true ->
  flt x y = false <-> (value y <= value x)%R.
Proof.
  intros Vx Vy Fx Fy. pose proof (flt_value x y Vx Vy Fx Fy) as H.
  destruct (flt x y); split; intro G; try reflexivity; try discriminate.
  - exfalso. assert (value x < value y)%R by (apply H; reflexivity). lra.
  - destruct (Rle_or_lt (value y) (value x)) as [L | L]; [exact L |].
    apply H in L. discriminate.
Qed.

Lemma fle_value (x y : float) :
  valid x = true -> valid y = true ->
  is_finite x = true -> is_finite y = true ->
  fle x y = true <-> (value x <= value y)%R.
Proof.
  intros Vx Vy Fx Fy. rewrite fle_scaled, !value_scaled by assumption.
  pose proof scaled_unit_pos as Hu. rewrite Z.leb_le. split; intro H.
  - apply Rmult_le_compat_r;
      [left; apply Rinv_0_lt_compat, Hu | apply IZR_le, H].
  - apply le_IZR. apply Rmult_le_reg_r with (/ IZR (2 ^ 149))%R;
      [apply Rinv_0_lt_compat, Hu | exact H].
Qed.

(** What lies between 0 and 1 is a number: not an infinity, not a NaN. *)
Lemma fle_finite_between (x : float) :
  fle (of_Z 0) x = true -> fle x (of_Z 1) = true -> is_finite x = true.
Proof.
  destruct x as [[] | [] | | [] m e]; intros H0 H1;
    try reflexivity; try discriminate H0; try discriminate H1.
Qed.

(** A number that is at most [a] is not above the successor of [a]. *)
Lemma flt_above_bound (a : positive) (ea : Z) (h : float) :
  fle h (S754_finite false a ea) = true ->
  flt (S754_finite false (Pos.succ a) ea) h = false.
Proof.
  destruct h as [[] | [] | | [] m e]; try reflexivity; try discriminate.
  unfold fle, flt, SFleb, SFltb. cbn [SFcompare].
  rewrite (Z.compare_antisym e ea).
  destruct (Z.compare_spec e ea) as [E | L | G]; cbn [CompOpp];
    try reflexivity; try discriminate.
  change (PosDef.Pos.compare_cont Eq m a) with (m ?= a)%positive.
  change (PosDef.Pos.compare_cont Eq (Pos.succ a) m)
    with (Pos.succ a ?= m)%positive.
  destruct (Pos.compare_spec m a) as [E' | L' | G']; try discriminate;
    intros _; destruct (Pos.compare_spec (Pos.succ a) m) as [E2 | L2 | G2];
    try reflexivity; lia.
Qed.

(** *** Operations with a zero operand *)





End Binary32Facts.

(** ** The layer march of [ParallaxMapping] on binary32 numbers *)

Module ParallaxF32Facts.
Import GlmFacts Binary32 Binary32Facts ParallaxF32.

(** The loop exits at once when its test fails, and otherwise takes a
    turn. *)
Lemma layer_loop_exit_f32 fuel u delta ld s :
  flt (currentLayerDepth s) (currentDepthMapValue s) = false ->
  layer_loop fuel u delta ld s = Ok (O, s).
Proof. intro H. destruct fuel; simpl; rewrite H; reflexivity. Qed.

Lemma layer_loop_turn_f32 fuel u delta ld s :
  flt (currentLayerDepth s) (currentDepthMapValue s) = true ->
  layer_loop (S fuel) u delta ld s =
  ('(n, s') <- layer_loop fuel u delta ld (layer_step u delta ld s) ;;
   Ok (S n, s')).
Proof. intro H. simpl. rewrite H. reflexivity. Qed.

Section SteadyF32.
(** The march over a region on which the depth map reads one number [h]:
    [reach] holds the coordinates the march can visit. *)
Variables (u : Uniforms) (delta : vec2) (reach : vec2 -> Prop) (h : float).
Hypothesis reach_depth : forall p, reach p -> depthMap u p = h.
Hypothesis reach_step : forall p, reach p -> reach (vsub2 p delta).

(** From layer [k] the loop stops at the first layer whose running sum is
    not below [h], given fuel for the layers up to any [N] whose sum is
    not. *)
Lemma layer_loop_steady_f32 (N : nat) :
  flt (layer_sum N) h = false ->
  forall fuel k s,
    reach (currentTexCoords s) ->
    currentDepthMapValue s = h ->
    currentLayerDepth s = layer_sum k ->
    (k <= N)%nat -> (N <= fuel + k)%nat ->
    exists n s',
      layer_loop fuel u delta (fdiv (of_Z 1) numLayers) s = Ok (n, s') /\
      reach (currentTexCoords s') /\
      currentDepthMapValue s' = h /\
      currentLayerDepth s' = layer_sum (k + n) /\
      flt (layer_sum (k + n)) h = false /\
      (forall j, (k <= j < k + n)%nat -> flt (layer_sum j) h = true) /\
      (k + n <= N)%nat.
Proof.
  intro HN. induction fuel as [| fuel IH]; intros k s Hr Hd HL Hk Hf.
  - assert (k = N) by lia. subst k.
    exists O, s. rewrite layer_loop_exit_f32 by (rewrite HL, Hd; exact HN).
    rewrite Nat.add_0_r. repeat split; try assumption; try lia.
  - destruct (flt (layer_sum k) h) eqn:Hlt.
    + assert (k <> N) by (intro E; subst k; rewrite HN in Hlt; discriminate).
      rewrite layer_loop_turn_f32 by (rewrite HL, Hd; exact Hlt).
      destruct (IH (S k) (layer_step u delta (fdiv (of_Z 1) numLayers) s))
        as (n & s' & E & Hr' & Hd' & HL' & Hstop & Hrun & Hle).
      * apply reach_step, Hr.
      * apply reach_depth, reach_step, Hr.
      * cbn [layer_step currentLayerDepth layer_sum]. rewrite HL. reflexivity.
      * lia.
      * lia.
      * rewrite E. simpl. exists (S n), s'.
        replace (k + S n)%nat with (S k + n)%nat by lia.
        repeat split; try assumption.
        intros j Hj. destruct (Nat.eq_dec j k) as [-> | Hne]; [exact Hlt |].
        apply Hrun. lia.
    + exists O, s. rewrite layer_loop_exit_f32 by (rewrite HL, Hd; exact Hlt).
      rewrite Nat.add_0_r. repeat split; try assumption; try lia.
Qed.
End SteadyF32.

(** The running sums of the ten layers are numbers of the format. *)
Lemma layer_sum_finite (k : nat) :
  (k <= 10)%nat -> valid (layer_sum k) = true /\ is_finite (layer_sum k) = true.
Proof.
  intro Hk.
  do 11 (destruct k as [| k]; [split; vm_compute; reflexivity |]). lia.
Qed.

(** The value of a closed binary32 number, as a quotient of two integer
    literals. *)
Ltac float_value x :=
  rewrite (value_scaled x) by (vm_compute; reflexivity);
  let z := eval vm_compute in (scaled x) in
  replace (scaled x) with z by (vm_compute; reflexivity);
  let p := eval vm_compute in (2 ^ 149)%Z in
  change (2 ^ 149)%Z with p.

(** Each sum lies at or above the layer boundary it stands for, and below the
    next one. *)
Lemma layer_sum_bounds (k : nat) :
  (k <= 10)%nat ->
  (INR k / 10 <= value (layer_sum k) < (INR k + 1) / 10)%R.
Proof.
  intro Hk.
  destruct k as [| k]; [float_value (layer_sum 0); simpl INR; lra |].
  destruct k as [| k]; [float_value (layer_sum 1); simpl INR; lra |].
  destruct k as [| k]; [float_value (layer_sum 2); simpl INR; lra |].
  destruct k as [| k]; [float_value (layer_sum 3); simpl INR; lra |].
  destruct k as [| k]; [float_value (layer_sum 4); simpl INR; lra |].
  destruct k as [| k]; [float_value (layer_sum 5); simpl INR; lra |].
  destruct k as [| k]; [float_value (layer_sum 6); simpl INR; lra |].
  destruct k as [| k]; [float_value (layer_sum 7); simpl INR; lra |].
  destruct k as [| k]; [float_value (layer_sum 8); simpl INR; lra |].
  destruct k as [| k]; [float_value (layer_sum 9); simpl INR; lra |].
  destruct k as [| k]; [float_value (layer_sum 10); simpl INR; lra |].
  lia.
Qed.

Lemma value_0 : value (of_Z 0) = 0%R.
Proof. reflexivity. Qed.

Lemma value_1 : value (of_Z 1) = 1%R.
Proof. float_value (of_Z 1). lra. Qed.

Lemma value_numLayers : value numLayers = 10%R.
Proof. float_value numLayers. lra. Qed.

(** C1, as amended.  Over a height field constant at a binary32 number [h]
    in [0,1] the loop of [ParallaxMapping] ends (fuel for ten turns is
    enough) after [n] turns, where [n] is the least number whose running sum
    [layer_sum n] of layer depths is not below [h].  That number is
    [ceil (h * numLayers)] or one less; it is 0 for [h = 0] and 10 for
    [h = 1]. *)
Theorem march_constant_field_binary32 h u texCoords viewDir fuel :
  valid h = true -> fle (of_Z 0) h = true -> fle h (of_Z 1) = true ->
  (forall p, depthMap u p = h) -> (10 <= fuel)%nat ->
  exists m,
    ParallaxMapping_march fuel u texCoords viewDir = Ok m /\
    (value h <= value (layer_sum (iterations m)))%R /\
    (forall k, (k < iterations m)%nat -> (value (layer_sum k) < value h)%R) /\
    (Z.of_nat (iterations m) = Glm.Rceil (value h * value numLayers) \/
     Z.of_nat (iterations m) = Glm.Rceil (value h * value numLayers) - 1)%Z /\
    (value h = 0%R -> iterations m = 0%nat) /\
    (value h = 1%R -> iterations m = 10%nat).
Proof.
  intros Vh H0 H1 Hconst Hfuel.
  assert (Fh : is_finite h = true) by (apply fle_finite_between; assumption).
  assert (Hlo : (0 <= value h)%R).
  { rewrite <- value_0. apply fle_value; try assumption; reflexivity. }
  assert (Hhi : (value h <= 1)%R).
  { rewrite <- value_1. apply fle_value; try assumption; reflexivity. }
  assert (Hcmp : forall k, (k <= 10)%nat ->
            (flt (layer_sum k) h = true
             <-> (value (layer_sum k) < value h)%R) /\
            (flt (layer_sum k) h = false
             <-> (value h <= value (layer_sum k))%R)).
  { intros k Hk. destruct (layer_sum_finite k Hk) as [Vk Fk].
    split; [apply flt_value | apply flt_false_value]; assumption. }
  assert (HN : flt (layer_sum 10) h = false).
  { apply (Hcmp 10%nat); [lia |].
    pose proof (layer_sum_bounds 10 ltac:(lia)) as [B _]. simpl INR in B. lra. }
  unfold ParallaxMapping_march. cbv zeta.
  match goal with
  | |- context [layer_loop fuel u ?d _ _] => set (delta := d)
  end.
  destruct (layer_loop_steady_f32 u delta (fun _ => True) h
              (fun p _ => Hconst p) (fun _ _ => I) 10 HN
              fuel O (march_start u texCoords) I (Hconst texCoords) eq_refl)
    as (n & s' & E & _ & _ & _ & Hstop & Hrun & Hn); [lia | lia |].
  cbn [Nat.add] in Hstop, Hrun, Hn.
  rewrite E. cbn [bind]. eexists. split; [reflexivity |]. cbn [iterations].
  assert (Hle : (value h <= value (layer_sum n))%R)
    by (apply (Hcmp n); assumption).
  assert (Hbelow : forall k, (k < n)%nat -> (value (layer_sum k) < value h)%R).
  { intros k Hk. apply (Hcmp k); [lia |]. apply Hrun. lia. }
  split; [exact Hle |]. split; [exact Hbelow |].
  rewrite value_numLayers.
  pose proof (Rceil_bounds (value h * 10)) as [C1 C2].
  set (c := Glm.Rceil (value h * 10)) in *.
  assert (Hc0 : (0 <= c)%Z).
  { apply le_IZR. destruct (Z_le_gt_dec 0 c) as [L | G]; [apply IZR_le, L |].
    exfalso. assert (c <= -1)%Z by lia. apply IZR_le in H. lra. }
  assert (Hc10 : (c <= 10)%Z).
  { destruct (Z_le_gt_dec c 10) as [L | G]; [exact L |].
    exfalso. assert (11 <= c)%Z by lia. apply IZR_le in H. lra. }
  assert (Hupper : (Z.of_nat n <= c)%Z).
  { destruct (Z_le_gt_dec (Z.of_nat n) c) as [L | G]; [exact L |].
    exfalso.
    assert (Hk : (Z.to_nat c < n)%nat) by lia.
    specialize (Hbelow _ Hk).
    pose proof (layer_sum_bounds (Z.to_nat c) ltac:(lia)) as [B _].
    rewrite INR_IZR_INZ, Z2Nat.id in B by exact Hc0. lra. }
  assert (Hlower : (c - 1 <= Z.of_nat n)%Z).
  { destruct (Z_le_gt_dec (c - 1) (Z.of_nat n)) as [L | G]; [exact L |].
    exfalso.
    pose proof (layer_sum_bounds n Hn) as [_ B].
    rewrite INR_IZR_INZ in B.
    assert (Z.of_nat n + 1 <= c - 1)%Z by lia.
    apply IZR_le in H. rewrite plus_IZR, minus_IZR in H. lra. }
  split; [lia |]. split; intro Hv.
  - destruct n as [| n]; [reflexivity |]. exfalso.
    specialize (Hbelow O ltac:(lia)).
    change (value (layer_sum 0)) with 0%R in Hbelow. lra.
  - destruct (Nat.eq_dec n 10) as [E10 | N10]; [exact E10 |]. exfalso.
    pose proof (layer_sum_bounds n Hn) as [_ B].
    assert (Hn9 : (n <= 9)%nat) by lia. apply le_INR in Hn9.
    simpl INR in Hn9. lra.
Qed.


(** A sample of at most 1 is reached by the tenth sum of layer depths. *)
Lemma unit_sample_reached (h : float) :
  fle h (of_Z 1) = true -> flt (layer_sum 10) h = false.
Proof.
  replace (layer_sum 10) with (S754_finite false (Pos.succ 8388608) (-23))
    by (vm_compute; reflexivity).
  replace (of_Z 1) with (S754_finite false 8388608 (-23))
    by (vm_compute; reflexivity).
  apply flt_above_bound.
Qed.



(** *** The statements on concrete inputs *)

Lemma march_constant_field_binary32_witness :
  exists m,
    ParallaxMapping_march 10 (flat_uniforms (decimal 5 10) (decimal 1 10))
      centre facing = Ok m /\
    (value (decimal 5 10) <= value (layer_sum (iterations m)))%R /\
    (forall k, (k < iterations m)%nat ->
       (value (layer_sum k) < value (decimal 5 10))%R) /\
    (Z.of_nat (iterations m)
       = Glm.Rceil (value (decimal 5 10) * value numLayers) \/
     Z.of_nat (iterations m)
       = Glm.Rceil (value (decimal 5 10) * value numLayers) - 1)%Z /\
    (value (decimal 5 10) = 0%R -> iterations m = 0%nat) /\
    (value (decimal 5 10) = 1%R -> iterations m = 10%nat).
Proof.
  apply (march_constant_field_binary32 (decimal 5 10)
           (flat_uniforms (decimal 5 10) (decimal 1 10)) centre facing 10).
  - vm_compute. reflexivity.
  - vm_compute. reflexivity.
  - vm_compute. reflexivity.
  - intro p. reflexivity.
  - apply le_n.
Defined.

(** The count is not [ceil (h * numLayers)] for every [h]: the seventh sum
    of layer depths is the binary32 number after 0.7, so over a field
    constant at that number the loop ends after 7 turns, where
    [ceil (h * numLayers)] is 8. *)
Lemma constant_field_turn_early :
  valid above_seven_tenths = true /\
  fle (of_Z 0) above_seven_tenths = true /\
  fle above_seven_tenths (of_Z 1) = true /\
  flt (of_Z 0) (v3z facing) = true /\
  layer_sum 7 = above_seven_tenths /\
  (exists m,
      ParallaxMapping_march 10 (flat_uniforms above_seven_tenths (decimal 1 10))
        centre facing = Ok m /\
      iterations m = 7%nat) /\
  Glm.Rceil (value above_seven_tenths * value numLayers) = 8%Z.
Proof.
  split; [vm_compute; reflexivity |]. split; [vm_compute; reflexivity |].
  split; [vm_compute; reflexivity |]. split; [vm_compute; reflexivity |].
  split; [vm_compute; reflexivity |]. split.
  - eexists. split; [vm_compute; reflexivity | reflexivity].
  - apply Rceil_unique. rewrite value_numLayers.
    float_value above_seven_tenths. lra.
Qed.




End ParallaxF32Facts.

(** ** The camera *)

Module CameraFacts.
Import Glm GlmFacts CameraH.

(** *** Angles *)

Lemma radians_0 : radians 0 = 0.
Proof. unfold radians. lra. Qed.

Lemma radians_90 : radians 90 = PI / 2.
Proof. unfold radians. lra. Qed.

Lemma radians_m90 : radians (-90) = - (PI / 2).
Proof. unfold radians. lra. Qed.

Lemma euler_front_unit (yaw pitch : R) :
  dot (euler_front yaw pitch) (euler_front yaw pitch) = 1.
Proof.
  unfold dot, euler_front. cbn [v3x v3y v3z].
  pose proof (sin2_cos2 (radians yaw)) as Hy.
  pose proof (sin2_cos2 (radians pitch)) as Hp.
  unfold Rsqr in Hy, Hp.
  replace (cos (radians yaw) * cos (radians pitch) *
           (cos (radians yaw) * cos (radians pitch)) +
           sin (radians pitch) * sin (radians pitch) +
           sin (radians yaw) * cos (radians pitch) *
           (sin (radians yaw) * cos (radians pitch)))
    with ((sin (radians yaw) * sin (radians yaw) +
           cos (radians yaw) * cos (radians yaw)) *
          (cos (radians pitch) * cos (radians pitch)) +
          sin (radians pitch) * sin (radians pitch)) by ring.
  rewrite Hy. lra.
Qed.


Lemma euler_front_default : euler_front YAW PITCH = V3 0 0 (-1).
Proof.
  unfold euler_front, YAW, PITCH.
  rewrite radians_0, radians_m90, cos_neg, sin_neg, cos_PI2, sin_PI2, cos_0, sin_0.
  f_equal; ring.
Qed.

(** *** Identities of the dot and cross products *)

Lemma dot_cross_left (a b : vec3) : dot a (cross a b) = 0.
Proof. unfold dot, cross. cbn [v3x v3y v3z]. ring. Qed.

Lemma dot_cross_right (a b : vec3) : dot b (cross a b) = 0.
Proof. unfold dot, cross. cbn [v3x v3y v3z]. ring. Qed.

Lemma dot_scale_r (a b : vec3) (k : R) : dot a (vscale3 b k) = k * dot a b.
Proof. unfold dot, vscale3. cbn [v3x v3y v3z]. ring. Qed.

Lemma dot_scale_both (a : vec3) (k : R) :
  dot (vscale3 a k) (vscale3 a k) = k * k * dot a a.
Proof. unfold dot, vscale3. cbn [v3x v3y v3z]. ring. Qed.

Lemma cross_norm (a b : vec3) :
  dot (cross a b) (cross a b) = dot a a * dot b b - dot a b * dot a b.
Proof. unfold dot, cross. cbn [v3x v3y v3z]. ring. Qed.

Lemma cross_cross (a b : vec3) :
  cross a (cross a b) = vsub3 (vscale3 a (dot a b)) (vscale3 b (dot a a)).
Proof.
  unfold dot, cross, vsub3, vscale3. cbn [v3x v3y v3z]. f_equal; ring.
Qed.

(** *** [updateCameraVectors] *)

Lemma updateCameraVectors_derived (c : Camera) :
  derived (updateCameraVectors c).
Proof. reflexivity. Qed.

Lemma ProcessMouseMovement_derived x y b c :
  derived (ProcessMouseMovement x y b c).
Proof. reflexivity. Qed.

Lemma new_Camera_derived position up yaw pitch :
  derived (new_Camera position up yaw pitch).
Proof. reflexivity. Qed.

Lemma derived_Front (c : Camera) : derived c -> Front c = Some (heading c).
Proof.
  intro H. transitivity (Front (updateCameraVectors c)).
  - rewrite H. reflexivity.
  - cbn [updateCameraVectors Front]. apply normalize_unit, euler_front_unit.
Qed.

Lemma derived_Right (c : Camera) :
  derived c -> Right c = normalize (cross (heading c) (WorldUp c)).
Proof.
  intro H. transitivity (Right (updateCameraVectors c)).
  - rewrite H. reflexivity.
  - cbn [updateCameraVectors Right].
    rewrite (normalize_unit _ (euler_front_unit (Yaw c) (Pitch c))).
    reflexivity.
Qed.

Lemma derived_Up (c : Camera) :
  derived c ->
  Up c = (r <~ Right c ;; normalize (cross r (heading c))).
Proof.
  intro H. rewrite (derived_Right c H).
  transitivity (Up (updateCameraVectors c)).
  - rewrite H. reflexivity.
  - cbn [updateCameraVectors Up].
    rewrite (normalize_unit _ (euler_front_unit (Yaw c) (Pitch c))).
    reflexivity.
Qed.

(** When the heading is parallel to the world-up vector, [Right] and [Up]
    are left undefined. *)
Lemma derived_parallel (c : Camera) :
  derived c -> ~ not_parallel (heading c) (WorldUp c) ->
  Right c = None /\ Up c = None.
Proof.
  intros H Hp. unfold not_parallel in Hp.
  assert (Hz : dot (cross (heading c) (WorldUp c))
                   (cross (heading c) (WorldUp c)) = 0).
  { destruct (Req_dec_T (dot (cross (heading c) (WorldUp c))
                             (cross (heading c) (WorldUp c))) 0); tauto. }
  assert (HR : Right c = None).
  { rewrite (derived_Right c H). apply normalize_zero, Hz. }
  split; [exact HR |]. rewrite (derived_Up c H), HR. reflexivity.
Qed.

(** Otherwise the three fields are an orthonormal basis. *)
Lemma derived_basis (c : Camera) :
  derived c -> not_parallel (heading c) (WorldUp c) -> camera_basis c.
Proof.
  intros H Hp. unfold not_parallel in Hp.
  set (f := heading c) in *.
  assert (Hf : dot f f = 1) by apply euler_front_unit.
  destruct (normalize_defined (cross f (WorldUp c)) Hp) as (k & Hk & Hkk & Hn).
  set (r := vscale3 (cross f (WorldUp c)) k) in *.
  assert (Hr : dot r r = 1).
  { unfold r. rewrite dot_scale_both. exact Hkk. }
  assert (Hfr : dot f r = 0).
  { unfold r. rewrite dot_scale_r, dot_cross_left. ring. }
  assert (Hrf : dot r f = 0).
  { unfold dot in *. lra. }
  assert (Hu : dot (cross r f) (cross r f) = 1).
  { rewrite cross_norm, Hr, Hf, Hrf. ring. }
  exists f, r, (cross r f).
  assert (HR : Right c = Some r).
  { rewrite (derived_Right c H). exact Hn. }
  split; [apply derived_Front, H |]. split; [exact HR |].
  split.
  { rewrite (derived_Up c H), HR. apply normalize_unit, Hu. }
  split.
  - unfold orthonormal. repeat split; try assumption.
    + apply dot_cross_right.
    + apply dot_cross_left.
  - unfold right_handed. rewrite cross_cross, Hrf, Hr.
    destruct f as [a b d], r as [a' b' d'].
    unfold vsub3, vscale3, vneg3. cbn [v3x v3y v3z]. f_equal; ring.
Qed.

(** *** [ProcessMouseMovement] *)

Lemma ProcessMouseMovement_Yaw x y b c :
  Yaw (ProcessMouseMovement x y b c) = Yaw c + x * MouseSensitivity c.
Proof.
  unfold ProcessMouseMovement. cbn [updateCameraVectors Yaw].
  destruct b; cbn [set_Pitch set_Yaw Pitch Yaw];
    repeat match goal with
           | |- context [if ?t then _ else _] => destruct t
           end; reflexivity.
Qed.

Lemma ProcessMouseMovement_WorldUp x y b c :
  WorldUp (ProcessMouseMovement x y b c) = WorldUp c.
Proof.
  unfold ProcessMouseMovement. cbn [updateCameraVectors WorldUp].
  destruct b; cbn [set_Pitch set_Yaw Pitch WorldUp];
    repeat match goal with
           | |- context [if ?t then _ else _] => destruct t
           end; reflexivity.
Qed.

(** The pitch after a constrained call: the sum, cut to [-89, 89]. *)
Lemma ProcessMouseMovement_Pitch x y c :
  Pitch (ProcessMouseMovement x y true c) =
  Rmax (-89) (Rmin 89 (Pitch c + y * MouseSensitivity c)).
Proof.
  unfold ProcessMouseMovement. cbn [updateCameraVectors Pitch].
  cbn [set_Pitch set_Yaw Pitch]. unfold Rgtb, Rltb.
  destruct (Rlt_dec 89 (Pitch c + y * MouseSensitivity c)) as [H1 | H1];
    cbn [set_Pitch Pitch].
  - destruct (Rlt_dec 89 (-89)) as [H2 | H2]; [lra |]. cbn [Pitch].
    rewrite Rmin_left by lra. rewrite Rmax_right by lra. reflexivity.
  - destruct (Rlt_dec (Pitch c + y * MouseSensitivity c) (-89)) as [H2 | H2];
      cbn [set_Pitch Pitch].
    + rewrite Rmin_right by lra. rewrite Rmax_left by lra. reflexivity.
    + rewrite Rmin_right by lra. rewrite Rmax_right by lra. reflexivity.
Qed.

Lemma ProcessMouseMovement_Pitch_free x y c :
  Pitch (ProcessMouseMovement x y false c) = Pitch c + y * MouseSensitivity c.
Proof. reflexivity. Qed.

Lemma rotate_calls_last calls x y b c :
  rotate_calls (calls ++ [(x, y, b)]) c =
  ProcessMouseMovement x y b (rotate_calls calls c).
Proof. unfold rotate_calls. rewrite fold_left_app. reflexivity. Qed.

Lemma rotate_calls_WorldUp calls c :
  WorldUp (rotate_calls calls c) = WorldUp c.
Proof.
  revert c. induction calls as [| [[x y] b] calls IH]; intro c.
  - reflexivity.
  - cbn [rotate_calls fold_left]. fold (rotate_calls calls).
    rewrite IH. apply ProcessMouseMovement_WorldUp.
Qed.


(** The cosine of a pitch in the clamped range is positive. *)
Lemma cos_clamped_pitch (pitch : R) :
  -89 <= pitch <= 89 -> 0 < cos (radians pitch).
Proof.
  intro H. pose proof PI_RGT_0 as Hpi. unfold radians.
  apply cos_gt_0; nra.
Qed.

(** With the world-up vector on the y axis, a heading whose pitch is in the
    clamped range is not parallel to it. *)
Lemma vertical_not_parallel (c : Camera) (k : R) :
  WorldUp c = V3 0 k 0 -> k <> 0 -> -89 <= Pitch c <= 89 ->
  not_parallel (heading c) (WorldUp c).
Proof.
  intros Hw Hk Hp. unfold not_parallel. rewrite Hw.
  pose proof (cos_clamped_pitch (Pitch c) Hp) as Hc.
  pose proof (sin2_cos2 (radians (Yaw c))) as Hy. unfold Rsqr in Hy.
  unfold heading, euler_front, cross, dot. cbn [v3x v3y v3z].
  set (cp := cos (radians (Pitch c))) in *.
  set (sy := sin (radians (Yaw c))) in *.
  set (cy := cos (radians (Yaw c))) in *.
  set (sp := sin (radians (Pitch c))) in *.
  replace ((sp * 0 - k * (sy * cp)) * (sp * 0 - k * (sy * cp)) +
           (sy * cp * 0 - 0 * (cy * cp)) * (sy * cp * 0 - 0 * (cy * cp)) +
           (cy * cp * k - 0 * sp) * (cy * cp * k - 0 * sp))
    with ((k * cp) * (k * cp) * (sy * sy + cy * cy)) by ring.
  rewrite Hy. apply Rmult_integral_contrapositive_currified; [| lra].
  assert (k * cp <> 0) by (apply Rmult_integral_contrapositive_currified; lra).
  apply Rmult_integral_contrapositive_currified; assumption.
Qed.

Lemma clamped_pitch_range (x : R) : -89 <= Rmax (-89) (Rmin 89 x) <= 89.
Proof.
  unfold Rmax, Rmin. destruct (Rle_dec 89 x);
    match goal with |- context [Rle_dec ?a ?b] => destruct (Rle_dec a b) end;
    lra.
Qed.

(** In particular the basis is restored by every constrained call on a
    camera whose world-up vector is on the y axis, as the default one is. *)
Lemma rotate_vertical_world_up calls xoffset yoffset c (k : R) :
  WorldUp c = V3 0 k 0 -> k <> 0 ->
  camera_basis (rotate_calls (calls ++ [(xoffset, yoffset, true)]) c).
Proof.
  intros Hw Hk. apply derived_basis.
  - rewrite rotate_calls_last. apply ProcessMouseMovement_derived.
  - apply (vertical_not_parallel _ k).
    + rewrite rotate_calls_WorldUp. exact Hw.
    + exact Hk.
    + rewrite rotate_calls_last, ProcessMouseMovement_Pitch.
      apply clamped_pitch_range.
Qed.

(** *** The clamps *)

(** C7.  With the pitch in [-89, 89] at the start, it is in [-89, 89] after
    every sequence of calls of [ProcessMouseMovement] that constrain the
    pitch, whatever the offsets. *)
Theorem pitch_stays_clamped (calls : list rotate_call) (c : Camera) :
  Forall (fun call => snd call = true) calls ->
  -89 <= Pitch c <= 89 ->
  -89 <= Pitch (rotate_calls calls c) <= 89.
Proof.
  intro Hcalls. revert c.
  induction Hcalls as [| [[x y] b] calls Hb _ IH]; intros c Hc.
  - exact Hc.
  - cbn [rotate_calls fold_left]. fold (rotate_calls calls).
    apply IH. cbn [snd] in Hb. subst b.
    rewrite ProcessMouseMovement_Pitch. apply clamped_pitch_range.
Qed.

Lemma ProcessMouseScroll_Zoom yoffset c :
  Zoom (ProcessMouseScroll yoffset c) = Rmin (Rmax (Zoom c - yoffset) 1) 45.
Proof.
  unfold ProcessMouseScroll, Rgtb, Rltb. cbn [set_Zoom Zoom].
  destruct (Rlt_dec (Zoom c - yoffset) 1) as [H1 | H1]; cbn [set_Zoom Zoom].
  - destruct (Rlt_dec 45 1) as [H2 | H2]; [lra |]. cbn [Zoom].
    rewrite Rmax_right by lra. rewrite Rmin_left by lra. reflexivity.
  - destruct (Rlt_dec 45 (Zoom c - yoffset)) as [H2 | H2]; cbn [set_Zoom Zoom].
    + rewrite Rmax_left by lra. rewrite Rmin_right by lra. reflexivity.
    + rewrite Rmax_left by lra. rewrite Rmin_left by lra. reflexivity.
Qed.

Lemma ProcessMouseScroll_range yoffset c :
  1 <= Zoom (ProcessMouseScroll yoffset c) <= 45.
Proof.
  rewrite ProcessMouseScroll_Zoom. unfold Rmax, Rmin.
  destruct (Rle_dec (Zoom c - yoffset) 1);
    match goal with |- context [Rle_dec ?a ?b] => destruct (Rle_dec a b) end;
    lra.
Qed.

(** C8.  [ProcessMouseScroll] takes the offset from the zoom and cuts the
    difference to [1, 45]; so a zoom that starts in [1, 45] is in [1, 45]
    after every sequence of calls. *)
Theorem zoom_stays_clamped (offsets : list R) (c : Camera) :
  1 <= Zoom c <= 45 ->
  (forall yoffset,
      Zoom (ProcessMouseScroll yoffset c) = Rmin (Rmax (Zoom c - yoffset) 1) 45) /\
  1 <= Zoom (zoom_calls offsets c) <= 45.
Proof.
  intro Hc. split; [intro; apply ProcessMouseScroll_Zoom |].
  revert c Hc. induction offsets as [| y offsets IH]; intros c Hc.
  - exact Hc.
  - cbn [zoom_calls fold_left]. fold (zoom_calls offsets).
    apply IH, ProcessMouseScroll_range.
Qed.

(** *** [ProcessKeyboard] *)

Lemma ProcessKeyboard_frame direction deltaTime c :
  Front (ProcessKeyboard direction deltaTime c) = Front c /\
  Up (ProcessKeyboard direction deltaTime c) = Up c /\
  Right (ProcessKeyboard direction deltaTime c) = Right c /\
  WorldUp (ProcessKeyboard direction deltaTime c) = WorldUp c /\
  Yaw (ProcessKeyboard direction deltaTime c) = Yaw c /\
  Pitch (ProcessKeyboard direction deltaTime c) = Pitch c /\
  MovementSpeed (ProcessKeyboard direction deltaTime c) = MovementSpeed c /\
  MouseSensitivity (ProcessKeyboard direction deltaTime c)
    = MouseSensitivity c /\
  Zoom (ProcessKeyboard direction deltaTime c) = Zoom c.
Proof. destruct direction; repeat split; reflexivity. Qed.

(** What [ProcessKeyboard] does to the position, direction by direction. *)
Lemma ProcessKeyboard_Position direction deltaTime c position front right up :
  Position c = Some position -> Front c = Some front ->
  Right c = Some right -> Up c = Some up ->
  Position (ProcessKeyboard direction deltaTime c) =
  let velocity := MovementSpeed c * deltaTime in
  Some match direction with
       | FORWARD =>
           vadd3 (vadd3 position (vscale3 front velocity))
                 (vscale3 front velocity)
       | BACKWARD =>
           vsub3 (vsub3 position (vscale3 front velocity))
                 (vscale3 front velocity)
       | LEFT => vsub3 position (vscale3 right velocity)
       | RIGHT => vadd3 position (vscale3 right velocity)
       | UP => vadd3 position (vscale3 up velocity)
       | DOWN => vsub3 position (vscale3 up velocity)
       end.
Proof.
  intros Hp Hf Hr Hu.
  destruct direction; unfold ProcessKeyboard;
    cbn [Camera_Movement_eqb Position_add Position_sub set_Position scaled
         Position Front Right Up MovementSpeed];
    rewrite ?Hp, ?Hf, ?Hr, ?Hu; reflexivity.
Qed.

(** The directions that are applied once move the position by
    [displacement]. *)
Lemma ProcessKeyboard_sideways direction deltaTime c position d :
  direction <> FORWARD -> direction <> BACKWARD ->
  Position c = Some position -> displacement direction deltaTime c = Some d ->
  Position (ProcessKeyboard direction deltaTime c) = Some (vadd3 position d).
Proof.
  intros HF HB Hp Hd.
  destruct direction; try contradiction;
    unfold ProcessKeyboard, displacement, scaled in *;
    cbn [Camera_Movement_eqb Position_add Position_sub set_Position scaled
         Position Front Right Up MovementSpeed] in *;
    rewrite Hp;
    [ destruct (Right c) as [[a b e] |] | destruct (Right c) as [[a b e] |]
    | destruct (Up c) as [[a b e] |] | destruct (Up c) as [[a b e] |] ];
    try discriminate;
    injection Hd as <-; destruct position as [px py pz];
    unfold vadd3, vsub3, vscale3; cbn [v3x v3y v3z];
    f_equal; f_equal; ring.
Qed.

(** *** The camera of [main.cpp] *)

Lemma scene_camera_Position : Position scene_camera = Some (V3 0 0 3).
Proof. reflexivity. Qed.

Lemma scene_camera_Front : Front scene_camera = Some (V3 0 0 (-1)).
Proof.
  rewrite (derived_Front scene_camera (new_Camera_derived _ _ _ _)).
  change (heading scene_camera) with (euler_front YAW PITCH).
  rewrite euler_front_default. reflexivity.
Qed.

Lemma scene_camera_Right : Right scene_camera = Some (V3 1 0 0).
Proof.
  rewrite (derived_Right scene_camera (new_Camera_derived _ _ _ _)).
  change (heading scene_camera) with (euler_front YAW PITCH).
  change (WorldUp scene_camera) with (V3 0 1 0).
  rewrite euler_front_default.
  replace (cross (V3 0 0 (-1)) (V3 0 1 0)) with (V3 1 0 0)
    by (unfold cross; cbn [v3x v3y v3z]; f_equal; ring).
  apply normalize_unit. unfold dot. cbn [v3x v3y v3z]. ring.
Qed.

Lemma scene_camera_Up : Up scene_camera = Some (V3 0 1 0).
Proof.
  rewrite (derived_Up scene_camera (new_Camera_derived _ _ _ _)).
  rewrite scene_camera_Right.
  change (heading scene_camera) with (euler_front YAW PITCH).
  rewrite euler_front_default.
  replace (cross (V3 1 0 0) (V3 0 0 (-1))) with (V3 0 1 0)
    by (unfold cross; cbn [v3x v3y v3z]; f_equal; ring).
  apply normalize_unit. unfold dot. cbn [v3x v3y v3z]. ring.
Qed.

(** C9.  On the camera of [main.cpp] (at (0,0,3), front (0,0,-1), speed 2.5),
    [ProcessKeyboard FORWARD] with [deltaTime = 1] moves the position to
    (0,0,-2), five units along the front vector, where one displacement of
    [movementSpeed * deltaTime] along it ends at (0,0,0.5). *)
Theorem forward_applied_twice :
  Position (ProcessKeyboard FORWARD 1 scene_camera) = Some (V3 0 0 (-2)) /\
  (p <~ Position scene_camera ;;
   d <~ displacement FORWARD 1 scene_camera ;;
   Some (vadd3 p d)) = Some (V3 0 0 0.5).
Proof.
  split.
  - rewrite (ProcessKeyboard_Position FORWARD 1 scene_camera _ _ _ _
               scene_camera_Position scene_camera_Front
               scene_camera_Right scene_camera_Up).
    change (MovementSpeed scene_camera) with SPEED. unfold SPEED.
    unfold vadd3, vscale3. cbn [v3x v3y v3z]. f_equal. f_equal; lra.
  - unfold displacement. rewrite scene_camera_Position, scene_camera_Front.
    change (MovementSpeed scene_camera) with SPEED. unfold SPEED, scaled.
    unfold vadd3, vscale3. cbn [v3x v3y v3z]. f_equal. f_equal; lra.
Qed.

(** *** The view matrix *)

Lemma lookat_direction_norm (position front : vec3) :
  dot (vsub3 position (vadd3 position front))
      (vsub3 position (vadd3 position front)) = dot front front.
Proof. unfold dot, vsub3, vadd3. cbn [v3x v3y v3z]. ring. Qed.

Lemma lookat_right_norm (position front up : vec3) (k : R) :
  dot (cross up (vscale3 (vsub3 position (vadd3 position front)) k))
      (cross up (vscale3 (vsub3 position (vadd3 position front)) k))
  = k * k * dot (cross up front) (cross up front).
Proof. unfold dot, cross, vscale3, vsub3, vadd3. cbn [v3x v3y v3z]. ring. Qed.

Lemma mat_vec_mul (a b : mat4) (v : vec4) :
  mat_vec (mat_mul a b) v = mat_vec a (mat_vec b v).
Proof.
  destruct a as [[a00 a01 a02 a03] [a10 a11 a12 a13]
                 [a20 a21 a22 a23] [a30 a31 a32 a33]].
  destruct b as [[b00 b01 b02 b03] [b10 b11 b12 b13]
                 [b20 b21 b22 b23] [b30 b31 b32 b33]].
  destruct v as [x y z w].
  cbv beta iota delta [mat_mul mat_vec vadd4 vscale4 col0 col1 col2 col3
                       v4x v4y v4z v4w].
  f_equal; ring.
Qed.

(** A matrix takes the origin, as a point, to its last column. *)
Lemma mat_vec_origin (m : mat4) : mat_vec m (V4 0 0 0 1) = col3 m.
Proof.
  destruct m as [[a00 a01 a02 a03] [a10 a11 a12 a13]
                 [a20 a21 a22 a23] [a30 a31 a32 a33]].
  cbv beta iota delta [mat_vec vadd4 vscale4 col0 col1 col2 col3
                       v4x v4y v4z v4w].
  f_equal; ring.
Qed.

(** The translation of [calc_lookat] takes the position to the origin. *)
Lemma translation_cancels (x y z : R) :
  mat_vec (mset I3 I2 (- z) (mset I3 I1 (- y) (mset I3 I0 (- x) mat4_identity)))
          (V4 x y z 1) = V4 0 0 0 1.
Proof.
  cbv beta iota delta [mat_vec vadd4 vscale4 mset vset mat4_identity
                       col0 col1 col2 col3 v4x v4y v4z v4w].
  f_equal; ring.
Qed.

(** Whatever matrix [calc_lookat] returns takes the position to the
    origin: its translation cancels the position and its rotation, whose
    last column is never assigned, fixes the origin. *)
Lemma calc_lookat_position (position target worldup : vec3) (view : mat4) :
  calc_lookat position target worldup = Some view ->
  mat_vec view (V4 (v3x position) (v3y position) (v3z position) 1)
    = V4 0 0 0 1.
Proof.
  unfold calc_lookat.
  destruct (normalize (vsub3 position target)) as [d |]; [| discriminate].
  destruct (normalize (cross worldup d)) as [r |]; [| discriminate].
  intro H. injection H as <-.
  cbv beta iota zeta delta [mset vset mat4_identity col0 col1 col2 col3].
  rewrite mat_vec_mul.
  change (mat_vec _ (V4 (v3x position) (v3y position) (v3z position) 1))
    with (mat_vec (mset I3 I2 (- v3z position)
                     (mset I3 I1 (- v3y position)
                        (mset I3 I0 (- v3x position) mat4_identity)))
            (V4 (v3x position) (v3y position) (v3z position) 1)).
  rewrite translation_cancels, mat_vec_origin. reflexivity.
Qed.

(** [calc_lookat] is defined when the target is off the position and the
    up vector is not along the line to it. *)
Lemma calc_lookat_defined (position front up : vec3) :
  dot front front <> 0 -> not_parallel up front ->
  exists view, calc_lookat position (vadd3 position front) up = Some view.
Proof.
  intros Hf Hu. unfold not_parallel in Hu. unfold calc_lookat.
  destruct (normalize_defined (vsub3 position (vadd3 position front)))
    as (k & Hk & _ & Hn).
  { rewrite lookat_direction_norm. exact Hf. }
  rewrite Hn.
  destruct (normalize_defined
              (cross up (vscale3 (vsub3 position (vadd3 position front)) k)))
    as (k' & Hk' & _ & Hn').
  { rewrite lookat_right_norm.
    apply Rmult_integral_contrapositive_currified; [| exact Hu].
    apply Rmult_integral_contrapositive_currified; lra. }
  rewrite Hn'. eexists. reflexivity.
Qed.

(** Whenever [GetViewMatrix] returns a matrix, it takes the position to the
    origin. *)
Lemma view_matrix_when_defined c view position :
  GetViewMatrix c = Some view -> Position c = Some position ->
  mat_vec view (V4 (v3x position) (v3y position) (v3z position) 1)
    = V4 0 0 0 1.
Proof.
  unfold GetViewMatrix. intros Hv Hp. rewrite Hp in Hv.
  destruct (Front c) as [f |]; [| discriminate].
  destruct (Up c) as [u |]; [| discriminate].
  exact (calc_lookat_position _ _ _ _ Hv).
Qed.



(** *** The statements on concrete cameras *)


(** The pitch does reach the bound of the clamp. *)
Lemma pitch_reaches_bound :
  Pitch (ProcessMouseMovement 0 1000 true scene_camera) = 89.
Proof.
  rewrite ProcessMouseMovement_Pitch.
  change (Pitch scene_camera) with PITCH.
  change (MouseSensitivity scene_camera) with SENSITIVITY.
  unfold PITCH, SENSITIVITY.
  rewrite Rmin_left by lra. rewrite Rmax_right by lra. reflexivity.
Qed.

(** Without the constraint the pitch can reach 90 degrees, and the camera
    of [main.cpp] then loses its [Right] and [Up] vectors. *)
Lemma unconstrained_pitch_overhead :
  Right (ProcessMouseMovement 0 900 false scene_camera) = None /\
  Up (ProcessMouseMovement 0 900 false scene_camera) = None.
Proof.
  apply derived_parallel; [apply ProcessMouseMovement_derived |].
  unfold heading.
  rewrite ProcessMouseMovement_Yaw, ProcessMouseMovement_Pitch_free.
  rewrite ProcessMouseMovement_WorldUp.
  change (WorldUp scene_camera) with (V3 0 1 0).
  change (Pitch scene_camera) with PITCH.
  change (MouseSensitivity scene_camera) with SENSITIVITY.
  unfold PITCH, SENSITIVITY.
  replace (0 + 900 * 0.1) with 90 by lra.
  unfold euler_front. rewrite radians_90, cos_PI2, sin_PI2.
  unfold not_parallel, cross, dot. cbn [v3x v3y v3z]. intro H. apply H. ring.
Qed.



Lemma pitch_stays_clamped_witness :
  -89 <= Pitch (rotate_calls [(0, 1000, true); (0, 1000, true)] scene_camera)
      <= 89.
Proof.
  apply (pitch_stays_clamped [(0, 1000, true); (0, 1000, true)] scene_camera).
  - repeat constructor.
  - change (Pitch scene_camera) with PITCH. unfold PITCH. lra.
Defined.

Lemma zoom_stays_clamped_witness :
  (forall yoffset,
      Zoom (ProcessMouseScroll yoffset scene_camera)
      = Rmin (Rmax (Zoom scene_camera - yoffset) 1) 45) /\
  1 <= Zoom (zoom_calls [100; -100; 3] scene_camera) <= 45.
Proof.
  apply (zoom_stays_clamped [100; -100; 3] scene_camera).
  change (Zoom scene_camera) with ZOOM. unfold ZOOM. lra.
Defined.



End CameraFacts.

(** ** More on the camera: orientation, motion and the view transform *)

Module CameraMotion.
Import Glm GlmFacts CameraH CameraFacts.

(** *** Orientation *)

(** X6.  The front vector is always defined and of length one after
    [updateCameraVectors], and so after the constructors and after every
    call of [ProcessMouseMovement]: it is the direction of the yaw and
    pitch, whatever the world-up vector. *)
Theorem Front_always_unit (c : Camera) x y b position up yaw pitch :
  dot (heading c) (heading c) = 1 /\
  Front (updateCameraVectors c) = Some (heading c) /\
  Front (ProcessMouseMovement x y b c)
    = Some (heading (ProcessMouseMovement x y b c)) /\
  Front (new_Camera position up yaw pitch) = Some (euler_front yaw pitch).
Proof.
  split; [apply euler_front_unit |]. split; [| split].
  - apply (derived_Front (updateCameraVectors c)), updateCameraVectors_derived.
  - apply derived_Front, ProcessMouseMovement_derived.
  - apply (derived_Front (new_Camera position up yaw pitch)),
      new_Camera_derived.
Qed.





(** *** Turning *)

Lemma ProcessMouseMovement_frame x y b c :
  Position (ProcessMouseMovement x y b c) = Position c /\
  MovementSpeed (ProcessMouseMovement x y b c) = MovementSpeed c /\
  MouseSensitivity (ProcessMouseMovement x y b c) = MouseSensitivity c /\
  Zoom (ProcessMouseMovement x y b c) = Zoom c.
Proof.
  unfold ProcessMouseMovement.
  cbn [updateCameraVectors Position MovementSpeed MouseSensitivity Zoom].
  destruct b; cbn [set_Pitch set_Yaw Pitch];
    repeat match goal with
           | |- context [if ?t then _ else _] => destruct t
           end; repeat split; reflexivity.
Qed.

(** X8.  Turning never moves the camera and the yaw is neither clamped nor
    wrapped: after any sequence of calls of [ProcessMouseMovement] the
    position, speed, sensitivity, zoom and world-up vector are as before, and
    the yaw is the yaw before plus the sensitivity times the sum of the x
    offsets. *)
Theorem rotate_calls_yaw (calls : list rotate_call) (c : Camera) :
  Yaw (rotate_calls calls c)
    = Yaw c + MouseSensitivity c * total_xoffset calls /\
  Position (rotate_calls calls c) = Position c /\
  WorldUp (rotate_calls calls c) = WorldUp c /\
  MovementSpeed (rotate_calls calls c) = MovementSpeed c /\
  MouseSensitivity (rotate_calls calls c) = MouseSensitivity c /\
  Zoom (rotate_calls calls c) = Zoom c.
Proof.
  revert c. induction calls as [| [[x y] b] calls IH]; intro c.
  - cbn [rotate_calls fold_left total_xoffset fold_right].
    repeat split; try reflexivity. ring.
  - change (rotate_calls ((x, y, b) :: calls) c)
      with (rotate_calls calls (ProcessMouseMovement x y b c)).
    destruct (IH (ProcessMouseMovement x y b c))
      as (HY & HP & HW & HS & HM & HZ).
    destruct (ProcessMouseMovement_frame x y b c) as (FP & FS & FM & FZ).
    rewrite HY, HP, HW, HS, HM, HZ, FP, FS, FM, FZ.
    rewrite ProcessMouseMovement_Yaw, ProcessMouseMovement_WorldUp.
    cbn [total_xoffset fold_right fst]. fold (total_xoffset calls).
    repeat split; try reflexivity. ring.
Qed.

Lemma normalize_is_unit_vec (v w : vec3) :
  normalize v = Some w -> dot w w = 1.
Proof.
  intro H. destruct (normalize_defined v (normalize_Some v w H))
    as (k & _ & Hk & E).
  rewrite E in H. injection H as <-. rewrite dot_scale_both. exact Hk.
Qed.

(** *** Moving *)

(** X11.  [LEFT], [RIGHT], [UP] and [DOWN] move the position by exactly
    [MovementSpeed * deltaTime] along the right or up vector, and no
    direction changes any other field. *)
Theorem ProcessKeyboard_strafe direction deltaTime c position d :
  direction <> FORWARD -> direction <> BACKWARD ->
  Position c = Some position -> displacement direction deltaTime c = Some d ->
  Position (ProcessKeyboard direction deltaTime c) = Some (vadd3 position d) /\
  set_Position (Position c) (ProcessKeyboard direction deltaTime c) = c.
Proof.
  intros HF HB Hp Hd. split.
  - exact (ProcessKeyboard_sideways direction deltaTime c position d
             HF HB Hp Hd).
  - destruct c as [P F U R W Y Pi S M Z]. destruct direction; reflexivity.
Qed.

(** X12.  [FORWARD] and [BACKWARD] move the position by twice
    [MovementSpeed * deltaTime] along the front vector, on every camera
    whose position and front vector are defined. *)
Theorem ProcessKeyboard_front_twice deltaTime c position front :
  Position c = Some position -> Front c = Some front ->
  Position (ProcessKeyboard FORWARD deltaTime c)
    = Some (vadd3 position
              (vscale3 front (2 * (MovementSpeed c * deltaTime)))) /\
  Position (ProcessKeyboard BACKWARD deltaTime c)
    = Some (vsub3 position
              (vscale3 front (2 * (MovementSpeed c * deltaTime)))).
Proof.
  destruct c as [P F U R W Y Pi S M Z]. cbn [Position Front MovementSpeed].
  intros -> ->. destruct position as [px py pz], front as [fx fy fz].
  split;
    cbv beta iota zeta delta
      [ProcessKeyboard Camera_Movement_eqb Position_add Position_sub
       set_Position scaled Position Front Up Right WorldUp Yaw Pitch
       MovementSpeed MouseSensitivity Zoom vadd3 vsub3 vscale3
       v3x v3y v3z];
    f_equal; f_equal; ring.
Qed.

(** *** Zooming *)

Lemma ProcessMouseScroll_clamped yoffset c :
  ProcessMouseScroll yoffset c
  = set_Zoom (Rmin (Rmax (Zoom c - yoffset) 1) 45) c.
Proof.
  unfold ProcessMouseScroll, Rgtb, Rltb. cbn [set_Zoom Zoom].
  destruct (Rlt_dec (Zoom c - yoffset) 1) as [H1 | H1]; cbn [set_Zoom Zoom].
  - destruct (Rlt_dec 45 1) as [H2 | H2]; [lra |].
    rewrite Rmax_right by lra. rewrite Rmin_left by lra.
    destruct c; reflexivity.
  - destruct (Rlt_dec 45 (Zoom c - yoffset)) as [H2 | H2].
    + rewrite Rmax_left by lra. rewrite Rmin_right by lra.
      destruct c; reflexivity.
    + rewrite Rmax_left by lra. rewrite Rmin_left by lra. reflexivity.
Qed.

Lemma set_Zoom_same (c : Camera) (z : R) : z = Zoom c -> set_Zoom z c = c.
Proof. intros ->. destruct c. reflexivity. Qed.

(** X14.  At the limits of the zoom, scrolling further the same way changes
    nothing: at zoom 1 a non-negative offset, and at zoom 45 a non-positive
    one, leave the camera as it is. *)
Theorem ProcessMouseScroll_saturates yoffset c :
  (Zoom c = 1 /\ 0 <= yoffset) \/ (Zoom c = 45 /\ yoffset <= 0) ->
  ProcessMouseScroll yoffset c = c.
Proof.
  intro H. rewrite ProcessMouseScroll_clamped. apply set_Zoom_same.
  destruct H as [[Hz Hy] | [Hz Hy]]; rewrite Hz.
  - rewrite Rmax_right by lra. rewrite Rmin_left by lra. reflexivity.
  - destruct (Rle_dec (45 - yoffset) 1).
    + lra.
    + rewrite Rmax_left by lra. rewrite Rmin_right by lra. reflexivity.
Qed.

(** *** The view transform *)

(** The matrix of [calc_lookat] expresses a point in the frame of the
    camera. *)
Lemma calc_lookat_in_frame position target worldup view :
  calc_lookat position target worldup = Some view ->
  exists direction right,
    normalize (vsub3 position target) = Some direction /\
    normalize (cross worldup direction) = Some right /\
    forall q,
      mat_vec view (point q)
      = in_frame position right (cross direction right) direction q.
Proof.
  unfold calc_lookat.
  destruct (normalize (vsub3 position target)) as [d |] eqn:Ed;
    [| discriminate].
  destruct (normalize (cross worldup d)) as [r |] eqn:Er; [| discriminate].
  intro H. injection H as <-. exists d, r.
  split; [reflexivity |]. split; [exact Er |]. intro q.
  rewrite mat_vec_mul.
  destruct position as [px py pz], q as [qx qy qz], d as [dx dy dz],
    r as [rx ry rz].
  cbv beta iota zeta delta
    [mat_vec vadd4 vscale4 mset vset mat4_identity point in_frame dot cross
     vsub3 col0 col1 col2 col3 v4x v4y v4z v4w v3x v3y v3z].
  f_equal; ring.
Qed.

(** X15.  The view matrix expresses a point in the frame of the camera:
    whenever [GetViewMatrix] returns a matrix, it takes every point [q] to
    the components of [q - Position] along the right, up and direction
    vectors that [calc_lookat] computes from [Front] and [Up]. *)
Theorem view_matrix_frame c view position :
  GetViewMatrix c = Some view -> Position c = Some position ->
  exists front up direction right,
    Front c = Some front /\ Up c = Some up /\
    normalize (vsub3 position (vadd3 position front)) = Some direction /\
    normalize (cross up direction) = Some right /\
    forall q,
      mat_vec view (point q)
      = in_frame position right (cross direction right) direction q.
Proof.
  unfold GetViewMatrix. intros Hv Hp. rewrite Hp in Hv.
  destruct (Front c) as [f |]; [| discriminate].
  destruct (Up c) as [u |]; [| discriminate].
  destruct (calc_lookat_in_frame _ _ _ _ Hv) as (d & r & Ed & Er & Hq).
  exists f, u, d, r. repeat split; assumption.
Qed.










Lemma normalize_neg (v d : vec3) :
  normalize v = Some d -> normalize (vneg3 v) = Some (vneg3 d).
Proof.
  unfold normalize, inversesqrt.
  replace (dot (vneg3 v) (vneg3 v)) with (dot v v)
    by (unfold dot, vneg3; cbn [v3x v3y v3z]; ring).
  destruct (rdiv 1 (sqrt (dot v v))) as [k |]; [| discriminate].
  intro H. injection H as <-. f_equal.
  destruct v as [a b e]. unfold vneg3, vscale3. cbn [v3x v3y v3z].
  f_equal; ring.
Qed.

Lemma vsub3_swap (a b : vec3) : vsub3 b a = vneg3 (vsub3 a b).
Proof.
  destruct a as [a1 a2 a3], b as [b1 b2 b3].
  unfold vsub3, vneg3. cbn [v3x v3y v3z]. f_equal; ring.
Qed.

Lemma cross_neg_r (a b : vec3) : cross a (vneg3 b) = vneg3 (cross a b).
Proof.
  destruct a as [a1 a2 a3], b as [b1 b2 b3].
  unfold cross, vneg3. cbn [v3x v3y v3z]. f_equal; ring.
Qed.

(** [calc_lookat_reverse] is [calc_lookat] turned about the up axis. *)
Lemma calc_lookat_reverse_turns position target worldup view :
  calc_lookat position target worldup = Some view ->
  exists view',
    calc_lookat_reverse position target worldup = Some view' /\
    forall v,
      mat_vec view' v
      = V4 (- v4x (mat_vec view v)) (v4y (mat_vec view v))
           (- v4z (mat_vec view v)) (v4w (mat_vec view v)).
Proof.
  unfold calc_lookat, calc_lookat_reverse.
  destruct (normalize (vsub3 position target)) as [d |] eqn:Ed;
    [| discriminate].
  destruct (normalize (cross worldup d)) as [r |] eqn:Er; [| discriminate].
  intro H. injection H as <-.
  rewrite (vsub3_swap position target), (normalize_neg _ _ Ed).
  rewrite cross_neg_r, (normalize_neg _ _ Er).
  eexists. split; [reflexivity |]. intro v.
  rewrite !mat_vec_mul.
  destruct position as [px py pz], v as [x y z w], d as [dx dy dz],
    r as [rx ry rz].
  cbv beta iota zeta delta
    [mat_vec vadd4 vscale4 mset vset mat4_identity cross vneg3
     col0 col1 col2 col3 v4x v4y v4z v4w v3x v3y v3z].
  f_equal; ring.
Qed.

(** X18.  [GetViewMatrixReverse] is [GetViewMatrix] turned about: whenever
    the view matrix is defined so is the reverse one, it gives every vector
    the image under the view matrix with the x and z components negated
    (the view half a turn about the up axis), and it too takes the position
    of the camera to the origin. *)
Theorem GetViewMatrixReverse_turned c view position :
  GetViewMatrix c = Some view -> Position c = Some position ->
  exists view',
    GetViewMatrixReverse c = Some view' /\
    (forall v,
        mat_vec view' v
        = V4 (- v4x (mat_vec view v)) (v4y (mat_vec view v))
             (- v4z (mat_vec view v)) (v4w (mat_vec view v))) /\
    mat_vec view' (point position) = V4 0 0 0 1.
Proof.
  intros Hv Hp.
  pose proof (view_matrix_when_defined c view position Hv Hp) as Ho.
  unfold GetViewMatrix in Hv. unfold GetViewMatrixReverse.
  rewrite Hp in *.
  destruct (Front c) as [f |]; [| discriminate].
  destruct (Up c) as [u |]; [| discriminate].
  destruct (calc_lookat_reverse_turns _ _ _ _ Hv) as (view' & E & Hm).
  exists view'. split; [exact E |]. split; [exact Hm |].
  rewrite Hm. unfold point. rewrite Ho. cbn [v4x v4y v4z v4w].
  f_equal; ring.
Qed.

(** *** The statements on concrete cameras *)


Lemma scene_lookat_defined :
  exists view, GetViewMatrix scene_camera = Some view.
Proof.
  destruct (calc_lookat_defined (V3 0 0 3) (V3 0 0 (-1)) (V3 0 1 0))
    as (view & E).
  - unfold dot. simpl. lra.
  - unfold not_parallel, cross, dot. simpl. lra.
  - exists view. unfold GetViewMatrix.
    rewrite scene_camera_Position, scene_camera_Front, scene_camera_Up.
    exact E.
Qed.


Lemma ProcessKeyboard_strafe_witness :
  Position (ProcessKeyboard LEFT 1 scene_camera)
  = Some (vadd3 (V3 0 0 3) (vscale3 (V3 1 0 0) (- (SPEED * 1)))) /\
  set_Position (Position scene_camera) (ProcessKeyboard LEFT 1 scene_camera)
  = scene_camera.
Proof.
  apply (ProcessKeyboard_strafe LEFT 1 scene_camera (V3 0 0 3)
           (vscale3 (V3 1 0 0) (- (SPEED * 1)))).
  - discriminate.
  - discriminate.
  - exact scene_camera_Position.
  - unfold displacement. rewrite scene_camera_Right. reflexivity.
Defined.

Lemma ProcessKeyboard_front_twice_witness :
  Position (ProcessKeyboard FORWARD 1 scene_camera)
  = Some (vadd3 (V3 0 0 3)
            (vscale3 (V3 0 0 (-1)) (2 * (MovementSpeed scene_camera * 1)))) /\
  Position (ProcessKeyboard BACKWARD 1 scene_camera)
  = Some (vsub3 (V3 0 0 3)
            (vscale3 (V3 0 0 (-1)) (2 * (MovementSpeed scene_camera * 1)))).
Proof.
  apply (ProcessKeyboard_front_twice 1 scene_camera (V3 0 0 3) (V3 0 0 (-1))).
  - exact scene_camera_Position.
  - exact scene_camera_Front.
Defined.

Lemma ProcessMouseScroll_saturates_witness :
  ProcessMouseScroll (- 5) scene_camera = scene_camera.
Proof.
  apply (ProcessMouseScroll_saturates (- 5) scene_camera).
  right. change (Zoom scene_camera) with ZOOM. unfold ZOOM.
  split; [reflexivity | lra].
Defined.

Lemma view_matrix_frame_witness :
  exists view front up direction right,
    GetViewMatrix scene_camera = Some view /\
    Front scene_camera = Some front /\ Up scene_camera = Some up /\
    normalize (vsub3 (V3 0 0 3) (vadd3 (V3 0 0 3) front)) = Some direction /\
    normalize (cross up direction) = Some right /\
    forall q,
      mat_vec view (point q)
      = in_frame (V3 0 0 3) right (cross direction right) direction q.
Proof.
  destruct scene_lookat_defined as (view & E).
  destruct (view_matrix_frame scene_camera view (V3 0 0 3) E
              scene_camera_Position) as (f & u & d & r & H).
  exists view, f, u, d, r. split; [exact E | exact H].
Defined.



Lemma GetViewMatrixReverse_turned_witness :
  exists view view',
    GetViewMatrix scene_camera = Some view /\
    GetViewMatrixReverse scene_camera = Some view' /\
    (forall v,
        mat_vec view' v
        = V4 (- v4x (mat_vec view v)) (v4y (mat_vec view v))
             (- v4z (mat_vec view v)) (v4w (mat_vec view v))) /\
    mat_vec view' (point (V3 0 0 3)) = V4 0 0 0 1.
Proof.
  destruct scene_lookat_defined as (view & E).
  destruct (GetViewMatrixReverse_turned scene_camera view (V3 0 0 3) E
              scene_camera_Position) as (view' & E' & Hm & Ho).
  exists view, view'. repeat split; assumption.
Defined.

End CameraMotion.

(** ** More on the shader: the march as a whole and the lighting *)

Module ShaderFacts.
Import Glm GlmFacts Parallax ParallaxFacts CameraFacts CameraMotion.








(** *** The lighting *)

Lemma dot_unit_le (a b : vec3) : dot a a = 1 -> dot b b = 1 -> dot a b <= 1.
Proof.
  destruct a as [a1 a2 a3], b as [b1 b2 b3]. unfold dot. cbn [v3x v3y v3z].
  intros Ha Hb.
  pose proof (Rle_0_sqr (a1 - b1)). pose proof (Rle_0_sqr (a2 - b2)).
  pose proof (Rle_0_sqr (a3 - b3)). unfold Rsqr in *. lra.
Qed.

Lemma Rmax_unit (x : R) : x <= 1 -> 0 <= Rmax x 0 <= 1.
Proof.
  intro H. unfold Rmax. destruct (Rle_dec x 0); lra.
Qed.

Lemma pow_unit (x : R) (n : nat) : 0 <= x <= 1 -> 0 <= x ^ n <= 1.
Proof.
  intros [H0 H1]. split.
  - apply pow_le, H0.
  - rewrite <- (pow1 n). apply pow_incr. lra.
Qed.

(** X4.  Whenever the lighting of [main] yields a colour, its alpha is 1 and,
    for a diffuse texel with non-negative components, each colour component
    is at least the ambient term [0.1 * c] and at most [1.1 * c + 0.2]. *)
Theorem lighting_bounds fs_in viewDir normalTexel color frag :
  0 <= v3x color -> 0 <= v3y color -> 0 <= v3z color ->
  lighting fs_in viewDir normalTexel color = Ok frag ->
  exists r g b,
    frag = FragColor (V4 r g b 1) /\
    0.1 * v3x color <= r <= 1.1 * v3x color + 0.2 /\
    0.1 * v3y color <= g <= 1.1 * v3y color + 0.2 /\
    0.1 * v3z color <= b <= 1.1 * v3z color + 0.2.
Proof.
  intros Hx Hy Hz. unfold lighting.
  destruct (normalize (vsubs3 (vscale3 normalTexel 2) 1)) as [n |] eqn:En;
    [| discriminate].
  destruct (normalize (vsub3 (TangentLightPos fs_in) (TangentFragPos fs_in)))
    as [l |] eqn:El; [| discriminate].
  cbn [guard bind].
  destruct (normalize (vadd3 l viewDir)) as [hv |] eqn:Eh; [| discriminate].
  cbn [guard bind].
  match goal with
  | |- Ok ?x = _ -> _ => intro H; assert (E : frag = x) by congruence
  end.
  rewrite E. clear H E.
  pose proof (normalize_is_unit_vec _ _ En) as Hn.
  pose proof (normalize_is_unit_vec _ _ El) as Hl.
  pose proof (normalize_is_unit_vec _ _ Eh) as Hh.
  pose proof (Rmax_unit _ (dot_unit_le l n Hl Hn)) as Hd.
  pose proof (pow_unit _ 32 (Rmax_unit _ (dot_unit_le n hv Hn Hh))) as Hs.
  set (diff := Rmax (dot l n) 0) in *.
  set (spec := Rmax (dot n hv) 0 ^ 32) in *.
  clearbody diff spec.
  eexists _, _, _. split; [reflexivity |].
  destruct color as [cx cy cz].
  unfold vadd3, smul3, vscale3, splat3. cbn [v3x v3y v3z] in *.
  repeat split; nra.
Qed.

(** X5.  The lighting yields a colour exactly when its three normalisations
    are of non-zero vectors: the normal texel is not (0.5, 0.5, 0.5), the
    light is not at the fragment, and the light direction is not opposite to
    the view direction.  Otherwise it ends in a division by zero. *)
Theorem lighting_defined_iff fs_in viewDir normalTexel color :
  ((exists c, lighting fs_in viewDir normalTexel color = Ok (FragColor c)) <->
   (vsubs3 (vscale3 normalTexel 2) 1 <> V3 0 0 0 /\
    exists lightDir,
      normalize (vsub3 (TangentLightPos fs_in) (TangentFragPos fs_in))
        = Some lightDir /\
      vadd3 lightDir viewDir <> V3 0 0 0)) /\
  ((forall c, lighting fs_in viewDir normalTexel color <> Ok (FragColor c)) ->
   lighting fs_in viewDir normalTexel color = Err DivByZero).
Proof.
  assert (Hzero : forall v, v <> V3 0 0 0 -> dot v v <> 0).
  { intros v Hv Hd. apply Hv, dot_self_zero, Hd. }
  assert (Hnz : forall v w, normalize v = Some w -> v <> V3 0 0 0).
  { intros v w E Hv. subst v. rewrite normalize_zero in E; [discriminate |].
    unfold dot. simpl. ring. }
  unfold lighting. split; [split |].
  - intros [c H].
    destruct (normalize (vsubs3 (vscale3 normalTexel 2) 1)) as [n |] eqn:En;
      [| discriminate].
    destruct (normalize (vsub3 (TangentLightPos fs_in) (TangentFragPos fs_in)))
      as [l |] eqn:El; [| discriminate].
    cbn [guard bind] in H.
    destruct (normalize (vadd3 l viewDir)) as [hv |] eqn:Eh; [| discriminate].
    split; [exact (Hnz _ _ En) |]. exists l. split; [reflexivity |].
    exact (Hnz _ _ Eh).
  - intros (Hn & l & El & Hh).
    destruct (normalize_defined _ (Hzero _ Hn)) as (k & _ & _ & En).
    destruct (normalize_defined _ (Hzero _ Hh)) as (k' & _ & _ & Eh).
    rewrite En, El. cbn [guard bind]. rewrite Eh. cbn [guard bind].
    eexists. reflexivity.
  - intro H.
    destruct (normalize (vsubs3 (vscale3 normalTexel 2) 1)) as [n |];
      [| reflexivity].
    destruct (normalize (vsub3 (TangentLightPos fs_in) (TangentFragPos fs_in)))
      as [l |]; [| reflexivity].
    cbn [guard bind] in *.
    destruct (normalize (vadd3 l viewDir)) as [hv |]; [| reflexivity].
    cbn [guard bind] in H. exfalso. eapply H. reflexivity.
Qed.

(** *** The statements on concrete inputs *)



(** The lighting once its three normalisations are known. *)
Lemma lighting_value fs_in viewDir normalTexel color n l hv :
  normalize (vsubs3 (vscale3 normalTexel 2) 1) = Some n ->
  normalize (vsub3 (TangentLightPos fs_in) (TangentFragPos fs_in)) = Some l ->
  normalize (vadd3 l viewDir) = Some hv ->
  lighting fs_in viewDir normalTexel color
  = Ok (FragColor
          (V4 (0.1 * v3x color + Rmax (dot l n) 0 * v3x color
               + 0.2 * Rmax (dot n hv) 0 ^ 32)
              (0.1 * v3y color + Rmax (dot l n) 0 * v3y color
               + 0.2 * Rmax (dot n hv) 0 ^ 32)
              (0.1 * v3z color + Rmax (dot l n) 0 * v3z color
               + 0.2 * Rmax (dot n hv) 0 ^ 32)
              1)).
Proof.
  intros En El Eh. unfold lighting. rewrite En, El. cbn [guard bind].
  rewrite Eh. reflexivity.
Qed.

Lemma normalize_z_axis (a : R) :
  0 < a -> normalize (V3 0 0 a) = Some (V3 0 0 1).
Proof.
  intro Ha. unfold normalize, inversesqrt, dot. cbn [v3x v3y v3z].
  replace (0 * 0 + 0 * 0 + a * a) with (a * a) by ring.
  rewrite sqrt_square by lra. rewrite rdiv_defined by lra.
  unfold vscale3. cbn [v3x v3y v3z]. f_equal. f_equal; field; lra.
Qed.

Lemma lighting_bounds_witness :
  exists r g b,
    FragColor
      (V4 (0.1 * 1 + Rmax (dot (V3 0 0 1) (V3 0 0 1)) 0 * 1
           + 0.2 * Rmax (dot (V3 0 0 1) (V3 0 0 1)) 0 ^ 32)
          (0.1 * 1 + Rmax (dot (V3 0 0 1) (V3 0 0 1)) 0 * 1
           + 0.2 * Rmax (dot (V3 0 0 1) (V3 0 0 1)) 0 ^ 32)
          (0.1 * 1 + Rmax (dot (V3 0 0 1) (V3 0 0 1)) 0 * 1
           + 0.2 * Rmax (dot (V3 0 0 1) (V3 0 0 1)) 0 ^ 32)
          1)
    = FragColor (V4 r g b 1) /\
    0.1 * 1 <= r <= 1.1 * 1 + 0.2 /\
    0.1 * 1 <= g <= 1.1 * 1 + 0.2 /\
    0.1 * 1 <= b <= 1.1 * 1 + 0.2.
Proof.
  apply (lighting_bounds centre_fragment facing (V3 0.5 0.5 1) (V3 1 1 1)).
  - simpl. lra.
  - simpl. lra.
  - simpl. lra.
  - apply (lighting_value centre_fragment facing (V3 0.5 0.5 1) (V3 1 1 1)).
    + replace (vsubs3 (vscale3 (V3 0.5 0.5 1) 2) 1) with (V3 0 0 1)
        by (unfold vsubs3, vscale3; simpl; f_equal; lra).
      apply normalize_z_axis. lra.
    + replace (vsub3 (TangentLightPos centre_fragment)
                     (TangentFragPos centre_fragment)) with (V3 0 0 2)
        by (unfold vsub3; simpl; f_equal; lra).
      apply normalize_z_axis. lra.
    + replace (vadd3 (V3 0 0 1) facing) with (V3 0 0 2)
        by (unfold vadd3, facing; simpl; f_equal; lra).
      apply normalize_z_axis. lra.
Defined.

End ShaderFacts.

(** ** The globals of [main.cpp] under the input handlers *)

Module SandboxFacts.
Import Glm GlmFacts CameraH CameraFacts CameraMotion Sandbox.

(** *** The camera *)










(** *** The handlers *)





(** *** The clamp of the height scale *)

Lemma key_moves_heightScale pressed key direction g :
  heightScale (key_moves pressed key direction g) = heightScale g.
Proof. unfold key_moves. destruct (pressed key); reflexivity. Qed.

(** What [processInput] does to the height scale. *)
Lemma processInput_heightScale pressed g :
  heightScale (processInput pressed g) =
  if pressed KEY_P then
    if Rgtb (heightScale g) 0 then heightScale g - 0.0005 else 0
  else if pressed KEY_O then
    if Rltb (heightScale g) 1 then heightScale g + 0.0005 else 1
  else heightScale g.
Proof.
  unfold processInput. cbv zeta.
  set (g0 := if pressed KEY_ESCAPE then set_shouldClose true g else g).
  assert (H0 : heightScale g0 = heightScale g)
    by (unfold g0; destruct (pressed KEY_ESCAPE); reflexivity).
  set (g6 := key_moves pressed KEY_E UP _).
  assert (H6 : heightScale g6 = heightScale g).
  { unfold g6. rewrite !key_moves_heightScale. exact H0. }
  clearbody g6. rewrite <- H6.
  destruct (pressed KEY_P).
  - destruct (Rgtb (heightScale g6) 0); reflexivity.
  - destruct (pressed KEY_O); [| reflexivity].
    destruct (Rltb (heightScale g6) 1); reflexivity.
Qed.

Lemma handle_heightScale g e :
  -0.0005 < heightScale g < 1.0005 ->
  -0.0005 < heightScale (handle g e) < 1.0005.
Proof.
  intro H. destruct e as [t pressed | x y | x y]; cbn [handle].
  - rewrite processInput_heightScale.
    change (heightScale (frame_time t g)) with (heightScale g).
    unfold Rgtb, Rltb.
    destruct (pressed KEY_P).
    + destruct (Rlt_dec 0 (heightScale g)); lra.
    + destruct (pressed KEY_O); [| exact H].
      destruct (Rlt_dec (heightScale g) 1); lra.
  - unfold mouse_callback. cbv zeta. destruct (firstMouse g); exact H.
  - exact H.
Qed.

(** X23.  The clamp of the height scale tests before it steps, so it holds
    the height scale within one step of [0,1] and not inside it: from a
    value strictly between -0.0005 and 1.0005 every sequence of frames and
    events leaves it there, and a frame with P held takes a value strictly
    between 0 and 0.0005 below zero. *)
Theorem heightScale_within_a_step (events : list event) (g : Globals) :
  -0.0005 < heightScale g < 1.0005 ->
  -0.0005 < heightScale (run events g) < 1.0005 /\
  (forall t pressed,
      pressed KEY_P = true -> 0 < heightScale g < 0.0005 ->
      heightScale (handle g (Frame t pressed)) < 0).
Proof.
  intro H. split.
  - revert g H. induction events as [| e events IH]; intros g H.
    + exact H.
    + cbn [run fold_left]. apply IH, handle_heightScale, H.
  - intros t pressed HP Hh. cbn [handle].
    rewrite processInput_heightScale, HP.
    change (heightScale (frame_time t g)) with (heightScale g).
    unfold Rgtb, Rltb. destruct (Rlt_dec 0 (heightScale g)); lra.
Qed.

(** *** The cursor *)

Lemma mouse_callback_fields x y g :
  lastX (mouse_callback x y g) = x /\
  lastY (mouse_callback x y g) = y /\
  firstMouse (mouse_callback x y g) = false /\
  MouseSensitivity (camera (mouse_callback x y g))
    = MouseSensitivity (camera g) /\
  Yaw (camera (mouse_callback x y g))
    = Yaw (camera g)
      + MouseSensitivity (camera g)
        * (x - (if firstMouse g then x else lastX g)).
Proof.
  unfold mouse_callback. cbv zeta.
  destruct (firstMouse g) eqn:Hf;
    cbn [set_camera set_last set_firstMouse camera lastX lastY firstMouse];
    rewrite ProcessMouseMovement_Yaw;
    destruct (ProcessMouseMovement_frame (x - x) (y - y) true (camera g))
      as (_ & _ & FM & _);
    destruct (ProcessMouseMovement_frame (x - lastX g) (lastY g - y) true
                (camera g)) as (_ & _ & FM' & _);
    rewrite ?FM, ?FM', ?Hf; repeat split; try reflexivity; ring.
Qed.

Lemma last_cons {A : Type} (a d : A) (l : list A) :
  last (a :: l) d = last l a.
Proof.
  revert a d. induction l as [| b l IH]; intros a d; [reflexivity |].
  change (last (a :: b :: l) d) with (last (b :: l) d).
  rewrite (IH b d). symmetry. exact (IH b a).
Qed.

Lemma cursor_moves_tracking (moves : list (R * R)) (g : Globals) :
  firstMouse g = false ->
  Yaw (camera (cursor_moves moves g))
    = Yaw (camera g)
      + MouseSensitivity (camera g)
        * (fst (last moves (lastX g, lastY g)) - lastX g) /\
  lastX (cursor_moves moves g) = fst (last moves (lastX g, lastY g)) /\
  lastY (cursor_moves moves g) = snd (last moves (lastX g, lastY g)) /\
  firstMouse (cursor_moves moves g) = false.
Proof.
  revert g. induction moves as [| [x y] moves IH]; intros g Hf.
  - cbn [cursor_moves fold_left last fst snd].
    repeat split; try assumption. ring.
  - change (cursor_moves ((x, y) :: moves) g)
      with (cursor_moves moves (mouse_callback x y g)).
    destruct (mouse_callback_fields x y g) as (HX & HY & HF & HM & HYaw).
    destruct (IH (mouse_callback x y g) HF) as (IY & IX & IL & IF).
    rewrite HX, HY in *. rewrite Hf in HYaw.
    pose proof (last_cons (x, y) (lastX g, lastY g) moves) as Hlast.
    rewrite Hlast, IY, IX, IL, HM, HYaw.
    repeat split; try reflexivity; try assumption. ring.
Qed.

(** X20.  The yaw follows the cursor: after any sequence of cursor positions
    delivered to [mouse_callback], the first of them on globals with
    [firstMouse] set, the yaw has changed by the sensitivity times the
    distance in x from the first position to the last one, whatever the
    path between them; so the first position alone does not turn the
    camera.  [lastX], [lastY] hold the last position and [firstMouse] is
    cleared. *)
Theorem cursor_yaw_tracks x1 y1 (rest : list (R * R)) (g : Globals) :
  firstMouse g = true ->
  Yaw (camera (cursor_moves ((x1, y1) :: rest) g))
    = Yaw (camera g)
      + MouseSensitivity (camera g) * (fst (last rest (x1, y1)) - x1) /\
  lastX (cursor_moves ((x1, y1) :: rest) g) = fst (last rest (x1, y1)) /\
  lastY (cursor_moves ((x1, y1) :: rest) g) = snd (last rest (x1, y1)) /\
  firstMouse (cursor_moves ((x1, y1) :: rest) g) = false.
Proof.
  intro Hf.
  change (cursor_moves ((x1, y1) :: rest) g)
    with (cursor_moves rest (mouse_callback x1 y1 g)).
  destruct (mouse_callback_fields x1 y1 g) as (HX & HY & HF & HM & HYaw).
  destruct (cursor_moves_tracking rest (mouse_callback x1 y1 g) HF)
    as (IY & IX & IL & IF).
  rewrite HX, HY in *. rewrite Hf in HYaw.
  rewrite IY, IX, IL, HM, HYaw.
  repeat split; try reflexivity; try assumption. ring.
Qed.

(** *** The tangent space of the quad *)

(** X22.  The tangent block of [renderQuad] solves for the tangent [T] and
    the bitangent [B] of a triangle: whenever it is defined, each edge is
    its texture-coordinate difference in u times [T] plus the one in v times
    [B]; and it is undefined exactly when the two differences are
    parallel. *)
Theorem tangent_space_solves edge1 edge2 deltaUV1 deltaUV2 :
  (tangent_space edge1 edge2 deltaUV1 deltaUV2 = None <->
   v2x deltaUV1 * v2y deltaUV2 - v2x deltaUV2 * v2y deltaUV1 = 0) /\
  forall T B,
    tangent_space edge1 edge2 deltaUV1 deltaUV2 = Some (T, B) ->
    edge1 = vadd3 (smul3 (v2x deltaUV1) T) (smul3 (v2y deltaUV1) B) /\
    edge2 = vadd3 (smul3 (v2x deltaUV2) T) (smul3 (v2y deltaUV2) B).
Proof.
  unfold tangent_space, rdiv.
  destruct (Req_dec_T (v2x deltaUV1 * v2y deltaUV2
                       - v2x deltaUV2 * v2y deltaUV1) 0) as [Hz | Hz].
  - split; [split; intro; [exact Hz | reflexivity] |].
    intros T B H. discriminate.
  - split; [split; intro H; [discriminate | contradiction] |].
    intros T B H. injection H as <- <-.
    destruct edge1 as [a1 a2 a3], edge2 as [b1 b2 b3],
      deltaUV1 as [u1 v1], deltaUV2 as [u2 v2].
    unfold vadd3, smul3. cbn [v3x v3y v3z v2x v2y] in *.
    split; f_equal; field; exact Hz.
Qed.

Lemma renderQuad_tangents_value :
  renderQuad_tangents
  = (Some (V3 2 0 0, V3 0 2 0), Some (V3 2 0 0, V3 0 2 0)).
Proof.
  unfold renderQuad_tangents, tangent_space, vsub3, vsub2.
  cbn [v3x v3y v3z v2x v2y].
  rewrite !rdiv_defined by lra.
  repeat f_equal; field.
Qed.

(** *** The statements on the initial globals *)


Lemma heightScale_within_a_step_witness :
  -0.0005 < heightScale (run [Frame 1 (fun _ => true); Scroll 0 1] startup)
    < 1.0005 /\
  (forall t pressed,
      pressed KEY_P = true -> 0 < heightScale startup < 0.0005 ->
      heightScale (handle startup (Frame t pressed)) < 0).
Proof.
  apply (heightScale_within_a_step [Frame 1 (fun _ => true); Scroll 0 1]
           startup).
  simpl. lra.
Defined.

Lemma cursor_yaw_tracks_witness :
  Yaw (camera (cursor_moves [(400, 300); (410, 290); (430, 300)] startup))
    = Yaw (camera startup)
      + MouseSensitivity (camera startup)
        * (fst (last [(410, 290); (430, 300)] (400, 300)) - 400) /\
  lastX (cursor_moves [(400, 300); (410, 290); (430, 300)] startup)
    = fst (last [(410, 290); (430, 300)] (400, 300)) /\
  lastY (cursor_moves [(400, 300); (410, 290); (430, 300)] startup)
    = snd (last [(410, 290); (430, 300)] (400, 300)) /\
  firstMouse (cursor_moves [(400, 300); (410, 290); (430, 300)] startup)
    = false.
Proof.
  apply (cursor_yaw_tracks 400 300 [(410, 290); (430, 300)] startup).
  reflexivity.
Defined.

End SandboxFacts.
